(** * The intensity-map renderer of [main.go], embedded in Rocq

    [main.go] serves one route: it reads per-prefecture intensities from
    the query string, fits a projection to the active prefectures, writes
    an SVG scene and rasterises it with labels and a footer.

    Conventions of the embedding.
    - Go's [int] is [Z]; every integer the handler computes stays far from
      the 64-bit range.
    - Go's [float64] is [R]: the arithmetic of the program is read as exact
      real arithmetic.  Rounding, infinities and NaN are outside the model.
    - [map[int]int] is [gmap Z Z]; reading a missing key gives Go's zero
      value.
    - A GeoJSON position [[]float64] is the pair of its first two numbers
      (the handler reads only [coord[0]] and [coord[1]]); every feature
      has a geometry.
    - A run-time panic and an [http.Error] reply are outcomes of their own.
    - The calls into [svgo], [oksvg], [freetype] and [png] are recorded as
      the operations they are asked to perform; they are taken to succeed. *)

From Stdlib Require Import Reals Lra ZArith String List.
From stdpp Require Import gmap strings pretty.

Import ListNotations.

(** ** Numbers *)

(** [func min(a, b float64) float64] *)
Definition min (a b : R) : R := if Rlt_dec a b then a else b.

(** [func max(a, b float64) float64] *)
Definition max (a b : R) : R := if Rgt_dec a b then a else b.

(** The conversion [int(x)] of a [float64]: the fraction is discarded
    (truncation towards zero). *)
Definition int_of_float64 (x : R) : Z :=
  if Rle_dec 0 x then Zfloor x else Zceil x.

(** [fmt.Sprintf("%d", n)] *)
Definition Sprintf_d (n : Z) : string := pretty n.

(** ** ColorRamp *)

(** [type IntensityQuery struct] *)
Record IntensityQuery : Type := mkIntensityQuery {
  ID : Z;
  Scale : Z
}.

(** [func intensityToColor(scale int) string] *)
Definition intensityToColor (scale : Z) : string :=
  match scale with
  | 0%Z => "#27272a"
  | 1%Z => "#bae6fd"
  | 2%Z => "#4ade80"
  | 3%Z => "#facc15"
  | 4%Z => "#f97316"
  | 5%Z => "#dc2626"
  | 6%Z => "#86198f"
  | 7%Z => "#500724"
  | _ =>
      if (scale >? 6)%Z then "#4a044e"
      else if (scale >? 5)%Z then "#b91c1c"
      else "#27272a"
  end.

(** The documented palette, index 0 to 7: inactive dark gray, pale cyan,
    green, yellow, orange, red, magenta, deep maroon. *)
Definition palette : list string :=
  [ "#27272a"; "#bae6fd"; "#4ade80"; "#facc15";
    "#f97316"; "#dc2626"; "#86198f"; "#500724" ].

(** ** Outcomes of a call *)

(** A Go call either returns, or panics (the server then drops the
    connection without a reply), or has answered through [http.Error]. *)
Inductive result (A : Type) : Type :=
  | Returned (a : A)
  | Panicked
  | HttpError (status : Z) (body : string).

Arguments Returned {A} a.
Arguments Panicked {A}.
Arguments HttpError {A} status body.

Definition bind {A B : Type} (r : result A) (k : A -> result B) : result B :=
  match r with
  | Returned a => k a
  | Panicked => Panicked
  | HttpError status body => HttpError status body
  end.

Notation "'let!' x ':=' r 'in' k" := (bind r (fun x => k))
  (at level 10, x name, r at level 100, k at level 200).

(** ** The geometry dataset *)

(** A position is (longitude, latitude); a ring is a sequence of positions. *)
Definition Position : Type := (R * R)%type.
Definition Ring : Type := list Position.

(** [geojson.Geometry]: the decoder fills the field that [Type] names. *)
Inductive Geometry : Type :=
  | Polygon (rings : list Ring)
  | MultiPolygon (polygons : list (list Ring))
  | OtherGeometry (type_name : string).

(** [geojson.Feature].  [id_property] is [Properties["id"]] seen through the
    type assertion [.(float64)]: [Some] of the number when the property is
    present and numeric, [None] when it is missing or of another type. *)
Record Feature : Type := mkFeature {
  id_property : option R;
  geometry : Geometry
}.

(** [scaleMap[id]]: a missing key reads as 0. *)
Definition scale_at (scaleMap : gmap Z Z) (id : Z) : Z :=
  default 0%Z (scaleMap !! id).

(** ** BoundsCalculator *)

Record Bounds : Type := mkBounds {
  minLon : R;
  minLat : R;
  maxLon : R;
  maxLat : R
}.

(** The body of the innermost loop of [calculateBounds]. *)
Definition widen (b : Bounds) (coord : Position) : Bounds :=
  let lon := fst coord in
  let lat := snd coord in
  mkBounds (min (minLon b) lon) (min (minLat b) lat)
           (max (maxLon b) lon) (max (maxLat b) lat).

Definition widen_ring (b : Bounds) (ring : Ring) : Bounds :=
  fold_left widen ring b.

Definition widen_polygon (b : Bounds) (rings : list Ring) : Bounds :=
  fold_left widen_ring rings b.

(** [switch feature.Geometry.Type] of [calculateBounds]: no default case. *)
Definition widen_geometry (b : Bounds) (g : Geometry) : Bounds :=
  match g with
  | Polygon rings => widen_polygon b rings
  | MultiPolygon polygons => fold_left widen_polygon polygons b
  | OtherGeometry _ => b
  end.

(** The loop over [fc.Features], from the running bounds [b]. *)
Fixpoint calculateBounds_loop (features : list Feature) (scaleMap : gmap Z Z)
    (b : Bounds) : result Bounds :=
  match features with
  | [] => Returned b
  | feature :: rest =>
      match id_property feature with
      | None => Panicked
      | Some idf =>
          let id := int_of_float64 idf in
          if decide (scale_at scaleMap id = 0%Z)
          then calculateBounds_loop rest scaleMap b
          else calculateBounds_loop rest scaleMap
                 (widen_geometry b (geometry feature))
      end
  end.

(** [func calculateBounds(fc, scaleMap) (minLon, minLat, maxLon, maxLat)] *)
Definition calculateBounds (features : list Feature) (scaleMap : gmap Z Z)
    : result Bounds :=
  calculateBounds_loop features scaleMap (mkBounds 180 90 (-180) (-90)).

(** ** Centroid *)

(** [func calculateCenter(coords [][]float64) (float64, float64)] *)
Definition calculateCenter (coords : Ring) : R * R :=
  let sumLon := fold_left (fun s coord => (s + fst coord)%R) coords 0%R in
  let sumLat := fold_left (fun s coord => (s + snd coord)%R) coords 0%R in
  let count := length coords in
  ((sumLon / INR count)%R, (sumLat / INR count)%R).

(** ** Projector *)

(** The closure [funcToScreen] of [mapHandler], with the variables it
    captures as arguments. *)
Definition funcToScreen (CANVAS_WIDTH CANVAS_HEIGHT : R) (b : Bounds)
    (lon lat : R) : R * R :=
  let margin := 0.1%R in
  let effectiveWidth := (CANVAS_WIDTH * (1 - 2 * margin))%R in
  let effectiveHeight := (CANVAS_HEIGHT * (1 - 2 * margin))%R in
  let centerLat := ((maxLat b + minLat b) / 2)%R in
  let centerLon := ((maxLon b + minLon b) / 2)%R in
  let centerX := (CANVAS_WIDTH / 2)%R in
  let centerY := (CANVAS_HEIGHT / 2)%R in
  let lonCorrection := cos (centerLat * PI / 180) in
  let lonSpan := ((maxLon b - minLon b) * lonCorrection)%R in
  let latSpan := (maxLat b - minLat b)%R in
  let scaleX := (effectiveWidth / lonSpan)%R in
  let scaleY := (effectiveHeight / latSpan)%R in
  let scale := min scaleX scaleY in
  let x := (((lon - centerLon) * lonCorrection) * scale + centerX)%R in
  let y := ((centerLat - lat) * scale + centerY)%R in
  (x, y).

(** ** PathBuilder, SceneComposer, Rasterizer and the handler *)

(** The calls made on the [svg] canvas, in order. *)
Inductive SvgOp : Type :=
  | SvgStart (w h : Z)
  | SvgRect (x y w h : Z) (style : string)
  | SvgPath (d : string) (style : string)
  | SvgEnd.

(** A call [c.DrawString(text, freetype.Pt(x, y))]. *)
Record DrawString : Type := mkDrawString {
  text : string;
  pt : Z * Z
}.

(** What [svgToPNG] rasterises and encodes: the SVG document, the pixel
    size, the font size, and the strings drawn on top, in call order. *)
Record Image : Type := mkImage {
  svgData : list SvgOp;
  width : Z;
  height : Z;
  fontSize : R;
  strings : list DrawString
}.

(** The query string of the request, parameter by parameter
    ([r.URL.Query().Get]: a missing parameter reads as the empty string). *)
Record Request : Type := mkRequest {
  query_scale : string;
  query_size : string;
  query_footer : string;
  query_scale_text : string
}.

(** What [os.ReadFile("japan.geojson")] followed by
    [geojson.UnmarshalFeatureCollection] gives. *)
Inductive Dataset : Type :=
  | ReadFailed (err : string)
  | UnmarshalFailed (err : string)
  | Loaded (features : list Feature).

(** The first element of a slice, [s[0]]: out of range on an empty one. *)
Definition first {A : Type} (s : list A) : result A :=
  match s with
  | [] => Panicked
  | a :: _ => Returned a
  end.

(** The loop of [mapHandler] that fills [scaleMap], from the map so far. *)
Fixpoint buildScaleMap (intensities : list IntensityQuery)
    (scaleMap : gmap Z Z) : result (gmap Z Z) :=
  match intensities with
  | [] => Returned scaleMap
  | intensity :: rest =>
      if ((Scale intensity <? 0) || (Scale intensity >? 7))%Z
      then HttpError 400
             ("Invalid scale value for ID " +:+ Sprintf_d (ID intensity)
                +:+ ": " +:+ Sprintf_d (Scale intensity))
      else buildScaleMap rest (<[ID intensity := Scale intensity]> scaleMap)
  end.

(** [switch size] of [mapHandler]. *)
Definition multiplier_of (size : string) : R :=
  if decide (size = "1") then 1%R
  else if decide (size = "2") then 2%R
  else if decide (size = "3") then 4%R
  else 1%R.

(** The centre a label is projected from, [switch feature.Geometry.Type]
    of [svgToPNG]: for another type the two variables keep their zero
    value. *)
Definition labelCenter (g : Geometry) : result (R * R) :=
  match g with
  | Polygon rings =>
      let! ring := first rings in Returned (calculateCenter ring)
  | MultiPolygon polygons =>
      let! polygon := first polygons in
      let! ring := first polygon in
      Returned (calculateCenter ring)
  | OtherGeometry _ => Returned (0%R, 0%R)
  end.

(** The [if showScale] loop of [svgToPNG]: the labels drawn, in order. *)
Fixpoint scaleLabels (features : list Feature) (scaleMap : gmap Z Z)
    (toScreen : R -> R -> R * R) : result (list DrawString) :=
  match features with
  | [] => Returned []
  | feature :: rest =>
      match id_property feature with
      | None => Panicked
      | Some idf =>
          let id := int_of_float64 idf in
          match scaleMap !! id with
          | None => scaleLabels rest scaleMap toScreen
          | Some scale =>
              if decide (scale = 0%Z)
              then scaleLabels rest scaleMap toScreen
              else
                let! center := labelCenter (geometry feature) in
                let xy := toScreen (fst center) (snd center) in
                let p := ((int_of_float64 (fst xy) - 5)%Z,
                          (int_of_float64 (snd xy) + 5)%Z) in
                let! drawn := scaleLabels rest scaleMap toScreen in
                Returned (mkDrawString (Sprintf_d scale) p :: drawn)
          end
      end
  end.

(** [func svgToPNG(svgData, width, height, footerText, showScale,
    multiplier, features, scaleMap, funcToScreen) ([]byte, error)] *)
Definition svgToPNG (svg : list SvgOp) (w h : Z) (footerText : string)
    (showScale : bool) (multiplier : R) (features : list Feature)
    (scaleMap : gmap Z Z) (toScreen : R -> R -> R * R) : result Image :=
  let footerText :=
    if decide (footerText = "")
    then "Code available under the MIT License (GitHub: evacuate)."
    else footerText in
  let! labels :=
    (if showScale then scaleLabels features scaleMap toScreen
     else Returned []) in
  let p := (int_of_float64 (10 * multiplier),
            (h - int_of_float64 (14 * multiplier))%Z) in
  Returned (mkImage svg w h (14 * multiplier)%R
              (labels ++ [mkDrawString footerText p])).

Section Formatting.

(** [fmt.Sprintf("%.1f", x)], the one formatting verb on a [float64]. *)
Variable Sprintf_1f : R -> string.

(** The loop over the coordinates of one ring, [i] being the loop index
    and [pathStr] the string so far. *)
Fixpoint ringSegments (toScreen : R -> R -> R * R) (i : nat) (ring : Ring)
    (pathStr : string) : string :=
  match ring with
  | [] => pathStr
  | coord :: rest =>
      let xy := toScreen (fst coord) (snd coord) in
      let pathStr :=
        if decide (i = 0%nat)
        then pathStr +:+ (Sprintf_1f (fst xy) +:+ " " +:+ Sprintf_1f (snd xy))
        else pathStr +:+
               (" L" +:+ Sprintf_1f (fst xy) +:+ " " +:+ Sprintf_1f (snd xy)) in
      ringSegments toScreen (S i) rest pathStr
  end.

(** The body of the loop over rings: one path string for one ring. *)
Definition ringPath (toScreen : R -> R -> R * R) (ring : Ring) : string :=
  ringSegments toScreen 0 ring "M" +:+ " Z".

(** The loop over the rings of one polygon, appending to [paths]. *)
Definition polygonPaths (toScreen : R -> R -> R * R) (paths : list string)
    (rings : list Ring) : list string :=
  fold_left (fun paths ring => paths ++ [ringPath toScreen ring]) rings paths.

(** [var paths []string] as [mapHandler] fills it for one feature. *)
Definition buildPaths (toScreen : R -> R -> R * R) (g : Geometry)
    : list string :=
  match g with
  | Polygon rings => polygonPaths toScreen [] rings
  | MultiPolygon polygons => fold_left (polygonPaths toScreen) polygons []
  | OtherGeometry _ => []
  end.

(** One pass of the loop over [fc.Features] in [mapHandler]: the
    [canvas.Path] call made for the feature. *)
Definition drawFeature (multiplier : R) (scaleMap : gmap Z Z)
    (toScreen : R -> R -> R * R) (feature : Feature) : result SvgOp :=
  match id_property feature with
  | None => HttpError 500 "Invalid ID format in GeoJSON"
  | Some id =>
      let scaleValue :=
        match scaleMap !! int_of_float64 id with
        | Some val => val
        | None => 0%Z
        end in
      let fillColor := intensityToColor scaleValue in
      let paths := buildPaths toScreen (geometry feature) in
      let finalPath := fold_left (fun acc p => acc +:+ p +:+ " ") paths "" in
      let strokeWidth := (0.4 * multiplier)%R in
      let style :=
        "fill:" +:+ fillColor +:+ ";stroke:#a1a1aa;stroke-width:"
          +:+ Sprintf_1f strokeWidth +:+ ";fill-opacity:0.8" in
      Returned (SvgPath finalPath style)
  end.

Fixpoint drawFeatures (multiplier : R) (scaleMap : gmap Z Z)
    (toScreen : R -> R -> R * R) (features : list Feature)
    (canvas : list SvgOp) : result (list SvgOp) :=
  match features with
  | [] => Returned canvas
  | feature :: rest =>
      let! op := drawFeature multiplier scaleMap toScreen feature in
      drawFeatures multiplier scaleMap toScreen rest (canvas ++ [op])
  end.

(** The scene part of [mapHandler], from [canvas.Start] to [canvas.End]. *)
Definition composeScene (multiplier : R) (CANVAS_WIDTH CANVAS_HEIGHT : R)
    (scaleMap : gmap Z Z) (toScreen : R -> R -> R * R)
    (features : list Feature) : result (list SvgOp) :=
  let w := int_of_float64 CANVAS_WIDTH in
  let h := int_of_float64 CANVAS_HEIGHT in
  let canvas := [SvgStart w h; SvgRect 0 0 w h "fill:#18181b"] in
  let! canvas := drawFeatures multiplier scaleMap toScreen features canvas in
  Returned (canvas ++ [SvgEnd]).

(** [func mapHandler(w http.ResponseWriter, r *http.Request)].
    [decoded] is what [json.Unmarshal] gives on the [scale] parameter (an
    error text or the pairs), [japan] what loading the dataset gives.  A
    reply [Returned img] is the PNG of [img] with content type image/png. *)
Definition mapHandler (r : Request) (decoded : string + list IntensityQuery)
    (japan : Dataset) : result Image :=
  let scaleData := query_scale r in
  if decide (scaleData = "")
  then HttpError 400 "scale parameter is required"
  else
    match decoded with
    | inl err => HttpError 400 ("Invalid scale data format: " +:+ err)
    | inr intensities =>
        let! scaleMap := buildScaleMap intensities ∅ in
        let multiplier := multiplier_of (query_size r) in
        let CANVAS_WIDTH := (1280 * multiplier)%R in
        let CANVAS_HEIGHT := (720 * multiplier)%R in
        match japan with
        | ReadFailed err => HttpError 500 ("Failed to read geojson: " +:+ err)
        | UnmarshalFailed err =>
            HttpError 500 ("Failed to unmarshal geojson: " +:+ err)
        | Loaded features =>
            let! b := calculateBounds features scaleMap in
            let toScreen := funcToScreen CANVAS_WIDTH CANVAS_HEIGHT b in
            let! svg :=
              composeScene multiplier CANVAS_WIDTH CANVAS_HEIGHT scaleMap
                toScreen features in
            let footerText := query_footer r in
            let showScale :=
              bool_decide (query_scale_text r = "true") in
            svgToPNG svg (int_of_float64 CANVAS_WIDTH)
              (int_of_float64 CANVAS_HEIGHT) footerText showScale multiplier
              features scaleMap toScreen
        end
    end.

End Formatting.

(** ** Vocabulary of the properties *)

(** The rings of a geometry, multi-polygons flattened. *)
Definition rings_of (g : Geometry) : list Ring :=
  match g with
  | Polygon rings => rings
  | MultiPolygon polygons => concat polygons
  | OtherGeometry _ => []
  end.

(** The vertices of a geometry. *)
Definition vertices (g : Geometry) : list Position := concat (rings_of g).

(** A position lies within bounds. *)
Definition within (b : Bounds) (p : Position) : Prop :=
  (minLon b <= fst p <= maxLon b /\ minLat b <= snd p <= maxLat b)%R.

(** [b'] reaches at least as far as [b] on every side. *)
Definition covers (b' b : Bounds) : Prop :=
  (minLon b' <= minLon b /\ minLat b' <= minLat b /\
   maxLon b <= maxLon b' /\ maxLat b <= maxLat b')%R.

(** The feature has a numeric id. *)
Definition has_id (f : Feature) : Prop := is_Some (id_property f).

(** The feature has a numeric id whose intensity is not 0. *)
Definition active (scaleMap : gmap Z Z) (f : Feature) : Prop :=
  exists idf, id_property f = Some idf /\
              scale_at scaleMap (int_of_float64 idf) <> 0%Z.

(** The feature has a numeric id whose intensity is above 0. *)
Definition labelled (scaleMap : gmap Z Z) (f : Feature) : bool :=
  match id_property f with
  | Some idf => bool_decide (0 < scale_at scaleMap (int_of_float64 idf))%Z
  | None => false
  end.

(** Every level of the assignment is in range, as the handler ensures. *)
Definition levels_in_range (scaleMap : gmap Z Z) : Prop :=
  map_Forall (fun _ level => (0 <= level <= 7)%Z) scaleMap.

(** [f'] is [f], except perhaps for its geometry when [f] is not active. *)
Definition same_unless_inactive (scaleMap : gmap Z Z) (f f' : Feature)
    : Prop :=
  id_property f = id_property f' /\
  (geometry f = geometry f' \/ ~ active scaleMap f).

(** Refinement target for the projector: the transform in the words of the
    specification, with the mathematical minimum [Rmin]. *)
Definition spec_projector (canvasWidth canvasHeight : R) (b : Bounds)
    (lon lat : R) : R * R :=
  let margin := 0.1%R in
  let centerLon := ((maxLon b + minLon b) / 2)%R in
  let centerLat := ((maxLat b + minLat b) / 2)%R in
  let lonCorrection := cos (centerLat * PI / 180) in
  let effectiveWidth := (canvasWidth * (1 - 2 * margin))%R in
  let effectiveHeight := (canvasHeight * (1 - 2 * margin))%R in
  let scale :=
    Rmin (effectiveWidth / ((maxLon b - minLon b) * lonCorrection))
         (effectiveHeight / (maxLat b - minLat b)) in
  ((lon - centerLon) * lonCorrection * scale + canvasWidth / 2,
   (centerLat - lat) * scale + canvasHeight / 2)%R.



(** The intensity pair is in range. *)
Definition valid_intensity (q : IntensityQuery) : Prop :=
  (0 <= Scale q <= 7)%Z.

(** The last pair of a list that carries the id. *)
Definition last_for (id : Z) (intensities : list IntensityQuery)
    : option IntensityQuery :=
  last (filter (fun q => ID q = id) intensities).

(** A position seen through the projector. *)
Definition project (toScreen : R -> R -> R * R) (coord : Position) : R * R :=
  toScreen (fst coord) (snd coord).

(** Path commands and their text, the vocabulary of the path strings. *)
Inductive PathCmd : Type :=
  | MoveTo (xy : R * R)
  | LineTo (xy : R * R)
  | ClosePath.

(** A closed path through the points: move to the first, line to the
    others in order, close. *)
Definition closed_path (points : list (R * R)) : list PathCmd :=
  match points with
  | [] => [ClosePath]
  | p :: ps => MoveTo p :: map LineTo ps ++ [ClosePath]
  end.

(** The vertices a path visits, in order. *)
Definition path_vertices (cmds : list PathCmd) : list (R * R) :=
  flat_map (fun c => match c with
                     | MoveTo xy | LineTo xy => [xy]
                     | ClosePath => []
                     end) cmds.

(** The text of a command and of a path (commands separated by a blank). *)
Definition cmd_text (fmt : R -> string) (c : PathCmd) : string :=
  match c with
  | MoveTo xy => "M" +:+ fmt (fst xy) +:+ " " +:+ fmt (snd xy)
  | LineTo xy => "L" +:+ fmt (fst xy) +:+ " " +:+ fmt (snd xy)
  | ClosePath => "Z"
  end.

Fixpoint path_text (fmt : R -> string) (cmds : list PathCmd) : string :=
  match cmds with
  | [] => ""
  | [c] => cmd_text fmt c
  | c :: rest => cmd_text fmt c +:+ " " +:+ path_text fmt rest
  end.

(** The style string of a region filled with [fillColor]. *)
Definition region_style (fmt : R -> string) (multiplier : R)
    (fillColor : string) : string :=
  "fill:" +:+ fillColor +:+ ";stroke:#a1a1aa;stroke-width:"
    +:+ fmt (0.4 * multiplier)%R +:+ ";fill-opacity:0.8".

(** The path data of a region: its paths, each followed by a blank. *)
Definition region_data (paths : list string) : string :=
  fold_right (fun p acc => p +:+ " " +:+ acc) "" paths.

(** The [canvas.Path] call of a region with numeric id [idf]. *)
Definition region_path (fmt : R -> string) (multiplier : R)
    (scaleMap : gmap Z Z) (toScreen : R -> R -> R * R) (f : Feature)
    : SvgOp :=
  let level :=
    match id_property f with
    | Some idf => scale_at scaleMap (int_of_float64 idf)
    | None => 0%Z
    end in
  SvgPath (region_data (buildPaths fmt toScreen (geometry f)))
          (region_style fmt multiplier (intensityToColor level)).

(** The unweighted mean of the vertices of a ring. *)
Definition mean (ring : Ring) : R * R :=
  ((fold_right Rplus 0 (map fst ring) / INR (length ring))%R,
   (fold_right Rplus 0 (map snd ring) / INR (length ring))%R).

(** The ring a label is anchored to: the first ring of a polygon, the first
    ring of the first part of a multi-polygon. *)
Definition label_ring (g : Geometry) : option Ring :=
  match g with
  | Polygon (ring :: _) => Some ring
  | MultiPolygon ((ring :: _) :: _) => Some ring
  | _ => None
  end.

(** The label of level [scale] anchored to [ring]. *)
Definition label_at (toScreen : R -> R -> R * R) (scale : Z) (ring : Ring)
    : DrawString :=
  let xy := toScreen (fst (mean ring)) (snd (mean ring)) in
  mkDrawString (Sprintf_d scale)
    ((int_of_float64 (fst xy) - 5)%Z, (int_of_float64 (snd xy) + 5)%Z).

(** [l] is the label of [f]: the level of [f], above 0, anchored to the
    first ring of [f]. *)
Definition label_of (scaleMap : gmap Z Z) (toScreen : R -> R -> R * R)
    (f : Feature) (l : DrawString) : Prop :=
  exists idf scale ring,
    id_property f = Some idf /\
    scaleMap !! int_of_float64 idf = Some scale /\ (0 < scale)%Z /\
    label_ring (geometry f) = Some ring /\
    l = label_at toScreen scale ring.

(** The footer drawn by [svgToPNG]. *)
Definition footer (footerText : string) (multiplier : R) (h : Z)
    : DrawString :=
  mkDrawString
    (if decide (footerText = "")
     then "Code available under the MIT License (GitHub: evacuate)."
     else footerText)
    (int_of_float64 (10 * multiplier),
     (h - int_of_float64 (14 * multiplier))%Z).

(** ** Sample inputs *)

(** Two prefectures: a polygon with id 13 and a multi-polygon with id 1. *)
Definition sample_features : list Feature :=
  [ mkFeature (Some 13%R)
      (Polygon [[(139, 35); (140, 35); (140, 36); (139, 35)]%R]);
    mkFeature (Some 1%R)
      (MultiPolygon [[[(141, 43); (142, 43); (142, 44); (141, 43)]%R]]) ].

(** Prefecture 13 at level 5, every other one at the default 0. *)
Definition sample_scaleMap : gmap Z Z := {[ 13%Z := 5%Z ]}.

(** A feature whose geometry is a point. *)
Definition point_feature : Feature :=
  mkFeature (Some 1%R) (OtherGeometry "Point").

(** A feature without id. *)
Definition anonymous_feature : Feature :=
  mkFeature None (Polygon [[(139, 35); (140, 35); (140, 36); (139, 35)]%R]).

(** A request with an empty list of intensities and no other parameter. *)
Definition sample_request : Request := mkRequest "[]" "" "" "".

(** A formatter to run the samples with: one decimal, half rounded up.
    The properties below hold for every formatter. *)
Definition sample_Sprintf_1f (x : R) : string :=
  let tenths := int_of_float64 (Rabs x * 10 + 0.5) in
  (if Rlt_dec x 0 then "-" else "")
    +:+ Sprintf_d (tenths / 10) +:+ "." +:+ Sprintf_d (tenths mod 10).

(** ** Vocabulary of the further properties *)

(** Some vertex of an active feature has the coordinate [v]. *)
Definition attained (features : list Feature) (scaleMap : gmap Z Z)
    (coordinate : Position -> R) (v : R) : Prop :=
  exists f p, In f features /\ active scaleMap f /\
              In p (vertices (geometry f)) /\ coordinate p = v.

(** Bounds with a positive span on both axes and latitudes between the
    poles. *)
Definition regular (b : Bounds) : Prop :=
  (minLon b < maxLon b /\ minLat b < maxLat b /\
   -90 <= minLat b /\ maxLat b <= 90)%R.

(** The reply to a pair whose scale is out of range. *)
Definition invalid_scale_reply (q : IntensityQuery) : result Image :=
  HttpError 400
    ("Invalid scale value for ID " +:+ Sprintf_d (ID q)
       +:+ ": " +:+ Sprintf_d (Scale q)).

(** The fill colour named by a style string of a path. *)
Definition filled_from_palette (fmt : R -> string) (multiplier : R)
    (op : SvgOp) : Prop :=
  match op with
  | SvgPath _ style =>
      exists color, In color palette /\
                    style = region_style fmt multiplier color
  | _ => True
  end.

(** A double quote, and the text of a [scale] parameter that gives level 5
    to prefecture 13. *)
Definition dq : string := String (Ascii.ascii_of_nat 34) "".

Definition sample_scale_text : string :=
  "[{" +:+ dq +:+ "id" +:+ dq +:+ ":13," +:+ dq +:+ "scale" +:+ dq
    +:+ ":5}]".

Definition sample_intensities : list IntensityQuery :=
  [mkIntensityQuery 13 5].

(** Prefecture 13 as a polygon without any ring. *)
Definition ringless_feature : Feature := mkFeature (Some 13%R) (Polygon []).

(** * Properties *)

(** ** Numbers *)

Lemma min_le_l (a b : R) : (min a b <= a)%R.
Proof. unfold min. destruct (Rlt_dec a b); lra. Qed.

Lemma min_le_r (a b : R) : (min a b <= b)%R.
Proof. unfold min. destruct (Rlt_dec a b); lra. Qed.

Lemma max_ge_l (a b : R) : (a <= max a b)%R.
Proof. unfold max. destruct (Rgt_dec a b); lra. Qed.

Lemma max_ge_r (a b : R) : (b <= max a b)%R.
Proof. unfold max. destruct (Rgt_dec a b); lra. Qed.

Lemma min_is_Rmin (a b : R) : min a b = Rmin a b.
Proof.
  unfold min, Rmin.
  destruct (Rlt_dec a b), (Rle_dec a b); lra.
Qed.

Lemma int_of_float64_IZR (z : Z) : int_of_float64 (IZR z) = z.
Proof.
  unfold int_of_float64.
  destruct (Rle_dec 0 (IZR z)).
  - apply ZfloorZ.
  - apply Zceil_eq. lra.
Qed.

(** ** ColorRamp *)

Lemma intensityToColor_outside (level : Z) :
  ~ (0 <= level <= 7)%Z ->
  intensityToColor level =
    if (level >? 6)%Z then "#4a044e"
    else if (level >? 5)%Z then "#b91c1c" else "#27272a".
Proof.
  intros Hout. unfold intensityToColor.
  destruct level as [|p|p]; [lia | | reflexivity].
  do 3 (try destruct p as [p|p|]); try reflexivity; lia.
Qed.

(** C4, as amended.  Levels 0 to 7 get exactly their palette entry; every
    level above 7 gets the single colour #4a044e, which is not a palette
    entry; every level below 0 gets the inactive colour; and the second
    fallback colour #b91c1c is returned for no level at all. *)
Theorem intensityToColor_palette_then_fallback :
  (forall level, (0 <= level <= 7)%Z ->
     palette !! Z.to_nat level = Some (intensityToColor level)) /\
  (forall level, (7 < level)%Z -> intensityToColor level = "#4a044e") /\
  (forall level, (level < 0)%Z -> intensityToColor level = "#27272a") /\
  (forall level, intensityToColor level <> "#b91c1c") /\
  ~ In "#4a044e" palette.
Proof.
  split; [|split; [|split; [|split]]].
  - intros level H.
    assert (Hcases : level = 0%Z \/ level = 1%Z \/ level = 2%Z \/ level = 3%Z
                     \/ level = 4%Z \/ level = 5%Z \/ level = 6%Z
                     \/ level = 7%Z) by lia.
    repeat destruct Hcases as [-> | Hcases]; try subst level; reflexivity.
  - intros level H. rewrite intensityToColor_outside by lia.
    destruct (Z.gtb_spec level 6); [reflexivity | lia].
  - intros level H. rewrite intensityToColor_outside by lia.
    destruct (Z.gtb_spec level 6); [lia|].
    destruct (Z.gtb_spec level 5); [lia | reflexivity].
  - intros level.
    destruct (decide (0 <= level <= 7)%Z) as [Hin | Hout].
    + assert (Hcases : level = 0%Z \/ level = 1%Z \/ level = 2%Z
                       \/ level = 3%Z \/ level = 4%Z \/ level = 5%Z
                       \/ level = 6%Z \/ level = 7%Z) by lia.
      repeat destruct Hcases as [-> | Hcases]; try subst level; discriminate.
    + rewrite intensityToColor_outside by assumption.
      destruct (Z.gtb_spec level 6); [discriminate|].
      destruct (Z.gtb_spec level 5); [lia | discriminate].
  - unfold palette. simpl. intros H.
    repeat destruct H as [H | H]; try discriminate H. exact H.
Qed.

(** Level 5 is red, level 9 falls back to #4a044e. *)
Lemma intensityToColor_palette_then_fallback_witness :
  palette !! Z.to_nat 5 = Some (intensityToColor 5) /\
  intensityToColor 9 = "#4a044e" /\
  intensityToColor (-1) = "#27272a".
Proof.
  destruct intensityToColor_palette_then_fallback as (Hp & Hhi & Hlo & _).
  split; [apply (Hp 5%Z); lia |].
  split; [apply (Hhi 9%Z); lia | apply (Hlo (-1)%Z); lia].
Defined.

(** C4, as stated, fails at level 8: the colour returned there is none of
    the eight palette entries, so it is neither of the two highest. *)
Lemma intensityToColor_8_outside_palette :
  intensityToColor 8 = "#4a044e" /\ ~ In (intensityToColor 8) palette.
Proof.
  split; [reflexivity|].
  simpl. intros H.
  repeat destruct H as [H | H]; try discriminate H. exact H.
Qed.

(** ** BoundsCalculator *)

Lemma covers_refl (b : Bounds) : covers b b.
Proof. unfold covers. lra. Qed.

Lemma covers_trans (b1 b2 b3 : Bounds) :
  covers b3 b2 -> covers b2 b1 -> covers b3 b1.
Proof. unfold covers. lra. Qed.

Lemma within_covers (b b' : Bounds) (p : Position) :
  covers b' b -> within b p -> within b' p.
Proof. unfold covers, within. lra. Qed.

Lemma widen_covers (b : Bounds) (p : Position) : covers (widen b p) b.
Proof.
  unfold covers, widen; simpl.
  pose proof (min_le_l (minLon b) (fst p)).
  pose proof (min_le_l (minLat b) (snd p)).
  pose proof (max_ge_l (maxLon b) (fst p)).
  pose proof (max_ge_l (maxLat b) (snd p)).
  lra.
Qed.

Lemma widen_within (b : Bounds) (p : Position) : within (widen b p) p.
Proof.
  unfold within, widen; simpl.
  pose proof (min_le_r (minLon b) (fst p)).
  pose proof (min_le_r (minLat b) (snd p)).
  pose proof (max_ge_r (maxLon b) (fst p)).
  pose proof (max_ge_r (maxLat b) (snd p)).
  lra.
Qed.

(** A loop whose every pass widens the bounds over the points of its
    element ends with bounds over the points of all the elements. *)
Lemma fold_left_widens {A : Type} (step : Bounds -> A -> Bounds)
    (points : A -> list Position) :
  (forall b a, covers (step b a) b /\
               forall p, In p (points a) -> within (step b a) p) ->
  forall l b,
    covers (fold_left step l b) b /\
    forall a p, In a l -> In p (points a) -> within (fold_left step l b) p.
Proof.
  intros Hstep l. induction l as [|a l IH]; intros b; simpl.
  - split; [apply covers_refl | intros a p []].
  - destruct (Hstep b a) as [Hcov Hin].
    destruct (IH (step b a)) as [IHcov IHin].
    split; [eapply covers_trans; eassumption|].
    intros a' p [<- | Ha'] Hp.
    + eapply within_covers; [exact IHcov | auto].
    + eauto.
Qed.

Lemma widen_ring_spec (b : Bounds) (ring : Ring) :
  covers (widen_ring b ring) b /\
  forall p, In p ring -> within (widen_ring b ring) p.
Proof.
  destruct (fold_left_widens widen (fun p => [p])) with (l := ring) (b := b)
    as [Hcov Hin].
  - intros b0 a. split; [apply widen_covers|].
    intros p [<- | []]. apply widen_within.
  - split; [exact Hcov|]. intros p Hp. apply (Hin p p Hp). now left.
Qed.

Lemma widen_polygon_spec (b : Bounds) (rings : list Ring) :
  covers (widen_polygon b rings) b /\
  forall p, In p (concat rings) -> within (widen_polygon b rings) p.
Proof.
  destruct (fold_left_widens widen_ring (fun ring => ring))
    with (l := rings) (b := b) as [Hcov Hin].
  - intros b0 ring. apply widen_ring_spec.
  - split; [exact Hcov|]. intros p Hp.
    apply in_concat in Hp as (ring & Hring & Hp). eauto.
Qed.

Lemma widen_geometry_spec (b : Bounds) (g : Geometry) :
  covers (widen_geometry b g) b /\
  forall p, In p (vertices g) -> within (widen_geometry b g) p.
Proof.
  destruct g as [rings | polygons | name]; unfold vertices; simpl.
  - apply widen_polygon_spec.
  - destruct (fold_left_widens widen_polygon (fun rings => concat rings))
      with (l := polygons) (b := b) as [Hcov Hin].
    + intros b0 rings. apply widen_polygon_spec.
    + split; [exact Hcov|]. intros p Hp.
      apply in_concat in Hp as (ring & Hring & Hp).
      apply in_concat in Hring as (rings & Hrings & Hring).
      apply (Hin rings p Hrings). apply in_concat. eauto.
  - split; [apply covers_refl | intros p []].
Qed.

Lemma active_iff (scaleMap : gmap Z Z) (f : Feature) (idf : R) :
  id_property f = Some idf ->
  active scaleMap f <-> scale_at scaleMap (int_of_float64 idf) <> 0%Z.
Proof.
  intros Hid. unfold active. split.
  - intros (idf' & Hid' & H). congruence.
  - intros H. eauto.
Qed.

Lemma calculateBounds_loop_spec (scaleMap : gmap Z Z)
    (features : list Feature) :
  Forall has_id features ->
  forall b, exists b',
    calculateBounds_loop features scaleMap b = Returned b' /\
    covers b' b /\
    forall f p, In f features -> active scaleMap f ->
                In p (vertices (geometry f)) -> within b' p.
Proof.
  induction 1 as [|f features [idf Hid] _ IH]; intros b; simpl.
  - exists b. split; [reflexivity|]. split; [apply covers_refl|].
    intros f p [].
  - rewrite Hid.
    destruct (decide (scale_at scaleMap (int_of_float64 idf) = 0%Z))
      as [Hzero | Hactive].
    + destruct (IH b) as (b' & Hrun & Hcov & Hin).
      exists b'. split; [exact Hrun|]. split; [exact Hcov|].
      intros f' p [<- | Hf'] Hact Hp; [|eauto].
      apply (active_iff _ _ _ Hid) in Hact. contradiction.
    + destruct (widen_geometry_spec b (geometry f)) as [Hcov0 Hin0].
      destruct (IH (widen_geometry b (geometry f)))
        as (b' & Hrun & Hcov & Hin).
      exists b'. split; [exact Hrun|].
      split; [eapply covers_trans; eassumption|].
      intros f' p [<- | Hf'] Hact Hp; [|eauto].
      eapply within_covers; [exact Hcov | auto].
Qed.

Lemma calculateBounds_loop_inactive (scaleMap : gmap Z Z)
    (features features' : list Feature) :
  Forall2 (same_unless_inactive scaleMap) features features' ->
  forall b, calculateBounds_loop features scaleMap b
            = calculateBounds_loop features' scaleMap b.
Proof.
  induction 1 as [|f f' features features' [Hid Hgeo] _ IH]; intros b; simpl.
  - reflexivity.
  - rewrite <- Hid. destruct (id_property f) as [idf|] eqn:Hf; [|reflexivity].
    destruct (decide (scale_at scaleMap (int_of_float64 idf) = 0%Z))
      as [Hzero | Hactive]; [apply IH|].
    destruct Hgeo as [<- | Hinactive]; [apply IH|].
    exfalso. apply Hinactive. apply (active_iff _ _ _ Hf). exact Hactive.
Qed.

Lemma calculateBounds_loop_idle (scaleMap : gmap Z Z)
    (features : list Feature) (b : Bounds) :
  Forall has_id features ->
  (forall f, In f features -> ~ active scaleMap f) ->
  calculateBounds_loop features scaleMap b = Returned b.
Proof.
  induction 1 as [|f features [idf Hid] _ IH]; intros Hidle; simpl.
  - reflexivity.
  - rewrite Hid.
    destruct (decide (scale_at scaleMap (int_of_float64 idf) = 0%Z))
      as [Hzero | Hactive].
    + apply IH. intros f' Hf'. apply Hidle. now right.
    + exfalso. apply (Hidle f); [now left|].
      apply (active_iff _ _ _ Hid). exact Hactive.
Qed.

(** C2.  On features with numeric ids [calculateBounds] returns bounds that
    hold every vertex of every active feature (multi-polygons flattened),
    and it returns the same bounds on any feature list that differs only in
    the geometry of features whose intensity is 0. *)
Theorem calculateBounds_holds_active_ignores_inactive
    (features : list Feature) (scaleMap : gmap Z Z) :
  Forall has_id features ->
  exists b,
    calculateBounds features scaleMap = Returned b /\
    (forall f p, In f features -> active scaleMap f ->
                 In p (vertices (geometry f)) -> within b p) /\
    (forall features',
       Forall2 (same_unless_inactive scaleMap) features features' ->
       calculateBounds features' scaleMap = Returned b).
Proof.
  intros Hids. unfold calculateBounds.
  destruct (calculateBounds_loop_spec scaleMap features Hids
              (mkBounds 180 90 (-180) (-90))) as (b & Hrun & _ & Hin).
  exists b. split; [exact Hrun|]. split; [exact Hin|].
  intros features' Hsame.
  rewrite <- (calculateBounds_loop_inactive _ _ _ Hsame). exact Hrun.
Qed.

(** C8.  When no feature is active, [calculateBounds] returns its initial
    values 180, 90, -180, -90 unchanged; these bounds are inverted on both
    axes. *)
Theorem calculateBounds_without_active_region
    (features : list Feature) (scaleMap : gmap Z Z) :
  Forall has_id features ->
  (forall f, In f features -> ~ active scaleMap f) ->
  exists b,
    calculateBounds features scaleMap = Returned b /\
    b = mkBounds 180 90 (-180) (-90) /\
    (minLon b > maxLon b)%R /\ (minLat b > maxLat b)%R.
Proof.
  intros Hids Hidle. exists (mkBounds 180 90 (-180) (-90)).
  split; [apply calculateBounds_loop_idle; assumption|].
  split; [reflexivity|]. simpl. lra.
Qed.

(** ** Projector *)

(** C1.  The projector computes exactly the documented transform: margin 0.1
    on each side, the centre of the bounds, the longitude correction
    cos(centerLat in radians), and as scale the minimum of the two ratios
    effective size / span. *)
Theorem funcToScreen_refines_spec_projector
    (CANVAS_WIDTH CANVAS_HEIGHT : R) (b : Bounds) (lon lat : R) :
  funcToScreen CANVAS_WIDTH CANVAS_HEIGHT b lon lat
  = spec_projector CANVAS_WIDTH CANVAS_HEIGHT b lon lat.
Proof.
  unfold funcToScreen, spec_projector. cbv zeta.
  rewrite min_is_Rmin. reflexivity.
Qed.

(** Between the poles the longitude correction is positive. *)
Lemma lonCorrection_positive (b : Bounds) :
  (minLat b < maxLat b)%R -> (-90 <= minLat b)%R -> (maxLat b <= 90)%R ->
  (0 < cos ((maxLat b + minLat b) / 2 * PI / 180))%R.
Proof.
  intros Hlt Hlo Hhi. pose proof PI_RGT_0 as Hpi.
  apply cos_gt_0; nra.
Qed.

Lemma mul_div_cancel (d e : R) : d <> 0%R -> (d * (e / d))%R = e.
Proof. intros Hd. field. exact Hd. Qed.

(** The scale fits both spans into the effective area. *)
Lemma scale_fits (w h dLon dLat c : R) :
  (0 <= w)%R -> (0 <= h)%R -> (0 < dLon)%R -> (0 < dLat)%R -> (0 < c)%R ->
  let scale := min (w * (1 - 2 * 0.1) / (dLon * c))
                   (h * (1 - 2 * 0.1) / dLat) in
  (0 <= dLon * c * scale <= w * 0.8 /\ 0 <= dLat * scale <= h * 0.8)%R.
Proof.
  intros Hw Hh HdLon HdLat Hc scale.
  assert (Hspan : (0 < dLon * c)%R) by nra.
  set (sx := (w * (1 - 2 * 0.1) / (dLon * c))%R) in *.
  set (sy := (h * (1 - 2 * 0.1) / dLat)%R) in *.
  assert (Hsx : (dLon * c * sx = w * 0.8)%R).
  { unfold sx. rewrite mul_div_cancel by lra. lra. }
  assert (Hsy : (dLat * sy = h * 0.8)%R).
  { unfold sy. rewrite mul_div_cancel by lra. lra. }
  assert (Hsx0 : (0 <= sx)%R).
  { apply Rmult_le_reg_l with (dLon * c)%R; [exact Hspan|]. nra. }
  assert (Hsy0 : (0 <= sy)%R).
  { apply Rmult_le_reg_l with dLat; [exact HdLat|]. nra. }
  pose proof (min_le_l sx sy) as Hl. pose proof (min_le_r sx sy) as Hr.
  assert (H0 : (0 <= scale)%R).
  { unfold scale, min. destruct (Rlt_dec sx sy); assumption. }
  fold scale in Hl, Hr.
  split; split; nra.
Qed.




(** ** The intensity assignment *)

(** On pairs in range the loop only inserts. *)
Lemma buildScaleMap_valid (intensities : list IntensityQuery) :
  Forall valid_intensity intensities ->
  forall scaleMap,
    buildScaleMap intensities scaleMap
    = Returned (foldl (fun m q => <[ID q := Scale q]> m) scaleMap intensities).
Proof.
  induction 1 as [|q intensities Hq _ IH]; intros scaleMap; simpl.
  - reflexivity.
  - unfold valid_intensity in Hq.
    destruct (Z.ltb_spec (Scale q) 0); [lia|].
    destruct (Z.gtb_spec (Scale q) 7); [lia|].
    simpl. apply IH.
Qed.

Lemma lookup_inserted (intensities : list IntensityQuery) (id : Z) :
  forall scaleMap : gmap Z Z,
    foldl (fun m q => <[ID q := Scale q]> m) scaleMap intensities !! id
    = match last_for id intensities with
      | Some q => Some (Scale q)
      | None => scaleMap !! id
      end.
Proof.
  unfold last_for.
  induction intensities as [|q intensities IH]; intros scaleMap; simpl.
  - reflexivity.
  - rewrite IH. rewrite filter_cons.
    destruct (decide (ID q = id)) as [Heq | Hne].
    + rewrite last_cons.
      destruct (last (filter (fun q0 => ID q0 = id) intensities));
        [reflexivity|].
      rewrite Heq. apply lookup_insert_eq.
    + destruct (last (filter (fun q0 => ID q0 = id) intensities));
        [reflexivity|].
      apply lookup_insert_ne. exact Hne.
Qed.

(** Dropping a pair that a later pair of the same id overrides leaves the
    last pair of every id as it was. *)
Lemma last_for_overridden (before after : list IntensityQuery)
    (q : IntensityQuery) (id : Z) :
  (exists q', In q' after /\ ID q' = ID q) ->
  last_for id (before ++ q :: after) = last_for id (before ++ after).
Proof.
  intros (q' & Hin & Hid). unfold last_for.
  rewrite !filter_app, filter_cons.
  destruct (decide (ID q = id)) as [Heq | Hne]; [|reflexivity].
  assert (Hne : filter (fun q0 => ID q0 = id) after <> []).
  { intros Hnil.
    assert (Hq' : q' ∈ filter (fun q0 => ID q0 = id) after).
    { apply list_elem_of_filter. split; [congruence|].
      apply list_elem_of_In. exact Hin. }
    rewrite Hnil in Hq'. inversion Hq'. }
  destruct (filter (fun q0 => ID q0 = id) after) as [|a rest] eqn:Hf;
    [contradiction|].
  rewrite !last_app, !last_cons.
  destruct (last rest); reflexivity.
Qed.

(** C10.  When every pair is in range the handler builds an assignment that
    maps each id to the scale of the last pair carrying it; a pair that a
    later pair of the same id overrides can be dropped from the list without
    changing the assignment, nor the reply of the handler. *)
Theorem buildScaleMap_last_pair_wins (intensities : list IntensityQuery) :
  Forall valid_intensity intensities ->
  exists scaleMap,
    buildScaleMap intensities ∅ = Returned scaleMap /\
    (forall id, scaleMap !! id = Scale <$> last_for id intensities) /\
    (forall before q after,
       intensities = before ++ q :: after ->
       (exists q', In q' after /\ ID q' = ID q) ->
       buildScaleMap (before ++ after) ∅ = Returned scaleMap /\
       forall Sprintf_1f r japan,
         mapHandler Sprintf_1f r (inr intensities) japan
         = mapHandler Sprintf_1f r (inr (before ++ after)) japan).
Proof.
  intros Hvalid.
  exists (foldl (fun m q => <[ID q := Scale q]> m) ∅ intensities).
  split; [apply buildScaleMap_valid; exact Hvalid|].
  split.
  - intros id. rewrite lookup_inserted.
    destruct (last_for id intensities); [reflexivity | apply lookup_empty].
  - intros before q after -> Hover.
    assert (Hvalid' : Forall valid_intensity (before ++ after)).
    { apply Forall_app in Hvalid as [Hb Ha]. apply Forall_app.
      split; [exact Hb|]. now inversion Ha. }
    assert (Hsame :
      buildScaleMap (before ++ after) ∅
      = Returned (foldl (fun m q0 => <[ID q0 := Scale q0]> m) ∅
                    (before ++ q :: after))).
    { rewrite buildScaleMap_valid by exact Hvalid'. f_equal.
      apply map_eq. intros id. rewrite !lookup_inserted.
      rewrite (last_for_overridden before after q id Hover). reflexivity. }
    split; [exact Hsame|].
    intros Sprintf_1f r japan. unfold mapHandler.
    rewrite Hsame. rewrite buildScaleMap_valid by exact Hvalid.
    reflexivity.
Qed.

(** ** PathBuilder *)

Lemma append_assoc (a b c : string) : (a +:+ b) +:+ c = a +:+ (b +:+ c).
Proof.
  induction a as [|ch a IH]; [reflexivity|].
  change (String ch ((a +:+ b) +:+ c) = String ch (a +:+ (b +:+ c))).
  now rewrite IH.
Qed.

Lemma append_empty_r (a : string) : a +:+ "" = a.
Proof.
  induction a as [|ch a IH]; [reflexivity|].
  change (String ch (a +:+ "") = String ch a). now rewrite IH.
Qed.

Lemma path_text_cons (fmt : R -> string) (c : PathCmd) (rest : list PathCmd) :
  rest <> [] ->
  path_text fmt (c :: rest) = cmd_text fmt c +:+ " " +:+ path_text fmt rest.
Proof. destruct rest; [contradiction | reflexivity]. Qed.

Section Paths.

Variable Sprintf_1f : R -> string.
Variable toScreen : R -> R -> R * R.

(** After the first vertex every pass of the loop adds one line-to. *)
Lemma ringSegments_lines (ring : Ring) :
  forall i pathStr,
    ringSegments Sprintf_1f toScreen (S i) ring pathStr +:+ " Z"
    = pathStr +:+ " " +:+
      path_text Sprintf_1f
        (map LineTo (map (project toScreen) ring) ++ [ClosePath]).
Proof.
  induction ring as [|coord ring IH]; intros i pathStr.
  - reflexivity.
  - cbn [ringSegments map app]. rewrite IH.
    destruct (decide (S i = 0%nat)) as [Hi | _]; [discriminate Hi|].
    rewrite path_text_cons by (destruct ring; discriminate).
    unfold cmd_text, project. rewrite !append_assoc. reflexivity.
Qed.

Lemma ringPath_closed_path (coord : Position) (ring : Ring) :
  ringPath Sprintf_1f toScreen (coord :: ring)
  = path_text Sprintf_1f
      (closed_path (map (project toScreen) (coord :: ring))).
Proof.
  unfold ringPath. cbn [ringSegments map].
  destruct (decide (0%nat = 0%nat)) as [_ | Hne]; [|contradiction].
  rewrite ringSegments_lines. unfold closed_path.
  rewrite path_text_cons by (destruct ring; discriminate).
  unfold cmd_text, project. rewrite !append_assoc. reflexivity.
Qed.

Lemma path_vertices_closed_path (points : list (R * R)) :
  path_vertices (closed_path points) = points.
Proof.
  destruct points as [|p ps]; [reflexivity|].
  unfold closed_path, path_vertices. simpl. f_equal.
  induction ps as [|q ps IH]; simpl; [reflexivity | now rewrite IH].
Qed.

Lemma polygonPaths_map (rings : list Ring) :
  forall paths,
    polygonPaths Sprintf_1f toScreen paths rings
    = paths ++ map (ringPath Sprintf_1f toScreen) rings.
Proof.
  unfold polygonPaths.
  induction rings as [|ring rings IH]; intros paths; simpl.
  - now rewrite app_nil_r.
  - rewrite IH. now rewrite <- app_assoc.
Qed.

Lemma multiPolygonPaths_map (polygons : list (list Ring)) :
  forall paths,
    fold_left (polygonPaths Sprintf_1f toScreen) polygons paths
    = paths ++ map (ringPath Sprintf_1f toScreen) (concat polygons).
Proof.
  induction polygons as [|rings polygons IH]; intros paths; simpl.
  - now rewrite app_nil_r.
  - rewrite IH, polygonPaths_map, map_app. now rewrite <- app_assoc.
Qed.

Lemma buildPaths_map (g : Geometry) :
  buildPaths Sprintf_1f toScreen g
  = map (ringPath Sprintf_1f toScreen) (rings_of g).
Proof.
  destruct g as [rings | polygons | name]; simpl.
  - apply polygonPaths_map.
  - apply multiPolygonPaths_map.
  - reflexivity.
Qed.

(** C3.  The paths built for a geometry are one per ring, in ring order;
    the path of a ring is the closed path through its projected vertices
    (move to the first, line to each next one in input order, close), so it
    visits exactly as many vertices as the ring has (a ring without vertex
    gives the path M Z, which visits none); and a multi-polygon gets as
    many paths as its parts have rings in total. *)
Theorem buildPaths_one_closed_path_per_ring :
  (forall g,
     buildPaths Sprintf_1f toScreen g
     = map (ringPath Sprintf_1f toScreen) (rings_of g) /\
     length (buildPaths Sprintf_1f toScreen g) = length (rings_of g)) /\
  (forall coord ring,
     ringPath Sprintf_1f toScreen (coord :: ring)
     = path_text Sprintf_1f
         (closed_path (map (project toScreen) (coord :: ring)))) /\
  ringPath Sprintf_1f toScreen [] = "M Z" /\
  (forall ring,
     path_vertices (closed_path (map (project toScreen) ring))
     = map (project toScreen) ring /\
     length (path_vertices (closed_path (map (project toScreen) ring)))
     = length ring) /\
  (forall polygons,
     length (buildPaths Sprintf_1f toScreen (MultiPolygon polygons))
     = list_sum (map length polygons)).
Proof.
  split; [|split; [|split; [|split]]].
  - intros g. rewrite buildPaths_map. split; [reflexivity|].
    apply length_map.
  - apply ringPath_closed_path.
  - reflexivity.
  - intros ring. rewrite path_vertices_closed_path.
    split; [reflexivity | apply length_map].
  - intros polygons. rewrite buildPaths_map, length_map. simpl.
    apply length_concat.
Qed.

End Paths.

(** ** SceneComposer *)

Lemma finalPath_region_data (paths : list string) :
  forall acc,
    fold_left (fun acc p => acc +:+ p +:+ " ") paths acc
    = acc +:+ region_data paths.
Proof.
  induction paths as [|p paths IH]; intros acc; simpl.
  - now rewrite append_empty_r.
  - rewrite IH. now rewrite !append_assoc.
Qed.

Section Scene.

Variable Sprintf_1f : R -> string.
Variable multiplier : R.
Variable scaleMap : gmap Z Z.
Variable toScreen : R -> R -> R * R.

Lemma drawFeature_region_path (f : Feature) :
  has_id f ->
  drawFeature Sprintf_1f multiplier scaleMap toScreen f
  = Returned (region_path Sprintf_1f multiplier scaleMap toScreen f).
Proof.
  intros [idf Hid]. unfold drawFeature, region_path. rewrite Hid.
  rewrite finalPath_region_data. unfold scale_at, region_style.
  destruct (scaleMap !! int_of_float64 idf); reflexivity.
Qed.

Lemma drawFeatures_region_paths (features : list Feature) :
  Forall has_id features ->
  forall canvas,
    drawFeatures Sprintf_1f multiplier scaleMap toScreen features canvas
    = Returned
        (canvas
           ++ map (region_path Sprintf_1f multiplier scaleMap toScreen)
                features).
Proof.
  induction 1 as [|f features Hf _ IH]; intros canvas; simpl.
  - now rewrite app_nil_r.
  - rewrite drawFeature_region_path by exact Hf. simpl.
    rewrite IH. now rewrite <- app_assoc.
Qed.

Lemma composeScene_returns (CANVAS_WIDTH CANVAS_HEIGHT : R)
    (features : list Feature) :
  Forall has_id features ->
  composeScene Sprintf_1f multiplier CANVAS_WIDTH CANVAS_HEIGHT scaleMap
    toScreen features
  = Returned
      (SvgStart (int_of_float64 CANVAS_WIDTH) (int_of_float64 CANVAS_HEIGHT)
         :: SvgRect 0 0 (int_of_float64 CANVAS_WIDTH)
              (int_of_float64 CANVAS_HEIGHT) "fill:#18181b"
         :: map (region_path Sprintf_1f multiplier scaleMap toScreen) features
         ++ [SvgEnd]).
Proof.
  intros Hids. unfold composeScene.
  rewrite drawFeatures_region_paths by exact Hids. reflexivity.
Qed.

(** C6.  On features with numeric ids the scene is the background
    rectangle over the whole canvas, then one path per feature in dataset
    order, inactive ones included; a feature whose id is absent from the
    assignment is filled with the colour of level 0; and the style of a
    region is its fill colour, the stroke colour #a1a1aa, the stroke width
    0.4 times the multiplier, and the fill opacity 0.8. *)
Theorem composeScene_background_then_all_regions
    (CANVAS_WIDTH CANVAS_HEIGHT : R) (features : list Feature) :
  Forall has_id features ->
  let w := int_of_float64 CANVAS_WIDTH in
  let h := int_of_float64 CANVAS_HEIGHT in
  composeScene Sprintf_1f multiplier CANVAS_WIDTH CANVAS_HEIGHT scaleMap
    toScreen features
  = Returned
      (SvgStart w h :: SvgRect 0 0 w h "fill:#18181b"
         :: map (region_path Sprintf_1f multiplier scaleMap toScreen) features
         ++ [SvgEnd]) /\
  (forall f idf,
     id_property f = Some idf ->
     region_path Sprintf_1f multiplier scaleMap toScreen f
     = SvgPath (region_data (buildPaths Sprintf_1f toScreen (geometry f)))
         ("fill:"
            +:+ intensityToColor
                  (default 0%Z (scaleMap !! int_of_float64 idf))
            +:+ ";stroke:#a1a1aa;stroke-width:"
            +:+ Sprintf_1f (0.4 * multiplier)%R +:+ ";fill-opacity:0.8")) /\
  (forall f idf,
     id_property f = Some idf ->
     scaleMap !! int_of_float64 idf = None ->
     region_path Sprintf_1f multiplier scaleMap toScreen f
     = SvgPath (region_data (buildPaths Sprintf_1f toScreen (geometry f)))
         (region_style Sprintf_1f multiplier (intensityToColor 0))).
Proof.
  intros Hids w h. split; [|split].
  - apply composeScene_returns. exact Hids.
  - intros f idf Hid. unfold region_path. rewrite Hid. reflexivity.
  - intros f idf Hid Habsent. unfold region_path, scale_at.
    rewrite Hid, Habsent. reflexivity.
Qed.

End Scene.

(** The scene of the two sample prefectures on the 1280 x 720 canvas. *)
Lemma composeScene_background_then_all_regions_witness :
  composeScene sample_Sprintf_1f 1 1280 720 sample_scaleMap
    (funcToScreen 1280 720 (mkBounds 139 35 140 36)) sample_features
  = Returned
      (SvgStart (int_of_float64 1280) (int_of_float64 720)
         :: SvgRect 0 0 (int_of_float64 1280) (int_of_float64 720)
              "fill:#18181b"
         :: map (region_path sample_Sprintf_1f 1 sample_scaleMap
                   (funcToScreen 1280 720 (mkBounds 139 35 140 36)))
              sample_features
         ++ [SvgEnd]).
Proof.
  apply (composeScene_background_then_all_regions sample_Sprintf_1f 1
           sample_scaleMap (funcToScreen 1280 720 (mkBounds 139 35 140 36))
           1280 720 sample_features).
  repeat (apply List.Forall_cons; [eexists; reflexivity|]).
  apply List.Forall_nil.
Defined.

(** ** Rasterizer: the labels *)

Lemma sum_from (values : list R) :
  forall acc, fold_left Rplus values acc = (acc + fold_right Rplus 0 values)%R.
Proof.
  induction values as [|v values IH]; intros acc; simpl.
  - lra.
  - rewrite IH. lra.
Qed.

Lemma fold_left_through_map {A : Type} (g : A -> R) (l : list A) :
  forall acc,
    fold_left (fun s a => (s + g a)%R) l acc = fold_left Rplus (map g l) acc.
Proof.
  induction l as [|a l IH]; intros acc; simpl; [reflexivity | apply IH].
Qed.

Lemma calculateCenter_mean (ring : Ring) : calculateCenter ring = mean ring.
Proof.
  unfold calculateCenter, mean.
  rewrite (fold_left_through_map fst), (fold_left_through_map snd).
  rewrite !sum_from.
  f_equal; f_equal; lra.
Qed.

Lemma labelCenter_label_ring (g : Geometry) (ring : Ring) :
  label_ring g = Some ring -> labelCenter g = Returned (mean ring).
Proof.
  destruct g as [[|r rings] | [|[|r rings] polygons] | name];
    simpl; intros H; inversion H; subst.
  - now rewrite calculateCenter_mean.
  - now rewrite calculateCenter_mean.
Qed.

Section Labels.

Variable scaleMap : gmap Z Z.
Variable toScreen : R -> R -> R * R.

Hypothesis levels : levels_in_range scaleMap.

Lemma scaleLabels_labelled (features : list Feature) :
  Forall has_id features ->
  Forall (fun f => labelled scaleMap f = true ->
                   is_Some (label_ring (geometry f))) features ->
  exists labels,
    scaleLabels features scaleMap toScreen = Returned labels /\
    Forall2 (label_of scaleMap toScreen)
      (List.filter (labelled scaleMap) features) labels.
Proof.
  induction 1 as [|f features [idf Hid] _ IH]; intros Hrings; simpl.
  - exists []. split; [reflexivity | constructor].
  - apply Forall_cons in Hrings as [Hring Hrings].
    destruct (IH Hrings) as (labels & Hrun & Hlabels).
    unfold labelled at 1, scale_at. unfold labelled, scale_at in Hring.
    rewrite Hid in *.
    destruct (scaleMap !! int_of_float64 idf) as [scale|] eqn:Hlookup; simpl.
    + destruct (decide (scale = 0%Z)) as [-> | Hnonzero].
      * rewrite bool_decide_eq_false_2 by lia. eauto.
      * pose proof (levels _ _ Hlookup) as Hrange. simpl in Hrange.
        rewrite bool_decide_eq_true_2 by lia.
        simpl in Hring. rewrite bool_decide_eq_true_2 in Hring by lia.
        destruct (Hring eq_refl) as [ring Hlr].
        rewrite (labelCenter_label_ring _ _ Hlr). simpl.
        rewrite Hrun. simpl.
        eexists. split; [reflexivity|].
        constructor; [|exact Hlabels].
        exists idf, scale, ring. repeat split; try assumption; lia.
    + eauto.
Qed.

(** C7.  With labels requested and every level in range, [svgToPNG] draws
    one label for each feature whose intensity is above 0, in dataset
    order, and none for a feature at 0 or absent from the assignment; the
    label shows the level, 5 pixels left of and 5 pixels below the
    projected mean of the vertices of the first ring (of the first part
    only, for a multi-polygon); the footer follows.  Without the request no
    label is drawn. *)
Theorem svgToPNG_labels_regions_above_zero
    (svg : list SvgOp) (w h : Z) (footerText : string) (multiplier : R)
    (features : list Feature) :
  Forall has_id features ->
  Forall (fun f => labelled scaleMap f = true ->
                   is_Some (label_ring (geometry f))) features ->
  (exists labels,
     svgToPNG svg w h footerText true multiplier features scaleMap toScreen
     = Returned (mkImage svg w h (14 * multiplier)%R
                   (labels ++ [footer footerText multiplier h])) /\
     Forall2 (label_of scaleMap toScreen)
       (List.filter (labelled scaleMap) features) labels) /\
  svgToPNG svg w h footerText false multiplier features scaleMap toScreen
  = Returned (mkImage svg w h (14 * multiplier)%R
                [footer footerText multiplier h]).
Proof.
  intros Hids Hrings. split; [|reflexivity].
  destruct (scaleLabels_labelled features Hids Hrings)
    as (labels & Hrun & Hlabels).
  exists labels. split; [|exact Hlabels].
  unfold svgToPNG. rewrite Hrun. reflexivity.
Qed.

End Labels.

(** ** The handler and malformed features *)

Lemma calculateBounds_loop_panics (scaleMap : gmap Z Z)
    (features : list Feature) :
  (exists f, In f features /\ id_property f = None) ->
  forall b, calculateBounds_loop features scaleMap b = Panicked.
Proof.
  intros (f & Hin & Hnone).
  induction features as [|f' features IH]; intros b; [destruct Hin|].
  simpl. destruct Hin as [-> | Hin].
  - now rewrite Hnone.
  - destruct (id_property f') as [idf|]; [|reflexivity].
    destruct (decide (scale_at scaleMap (int_of_float64 idf) = 0%Z));
      apply IH; exact Hin.
Qed.

Lemma scaleLabels_returns (scaleMap : gmap Z Z) (toScreen : R -> R -> R * R)
    (features : list Feature) :
  Forall has_id features ->
  Forall (fun f => labelCenter (geometry f) <> Panicked) features ->
  exists labels, scaleLabels features scaleMap toScreen = Returned labels.
Proof.
  induction 1 as [|f features [idf Hid] _ IH]; intros Hcenters; simpl.
  - eauto.
  - apply Forall_cons in Hcenters as [Hcenter Hcenters].
    destruct (IH Hcenters) as (labels & Hrun).
    rewrite Hid.
    destruct (scaleMap !! int_of_float64 idf) as [scale|]; [|eauto].
    destruct (decide (scale = 0%Z)); [eauto|].
    assert (Hc : exists center, labelCenter (geometry f) = Returned center).
    { destruct (geometry f) as [[|r rings] | [|[|r rings] polygons] | name];
        simpl in *; try contradiction; eauto. }
    destruct Hc as [center ->]. simpl. rewrite Hrun. simpl. eauto.
Qed.

Section Handler.

Variable Sprintf_1f : R -> string.

(** C9, as amended.  On a request whose intensities are in range and whose
    dataset loads, a feature without numeric id makes the handler panic, so
    that no image is returned.  An unsupported geometry type does not fail
    the request: such a feature adds nothing to the bounds, has no path and
    a label centre of its own, and when every feature has a numeric id (and
    every polygon the ring its label needs) the handler returns the image,
    with one path for every feature of the dataset. *)
Theorem mapHandler_fails_without_id_not_on_geometry_type
    (r : Request) (intensities : list IntensityQuery)
    (features : list Feature) :
  query_scale r <> "" ->
  Forall valid_intensity intensities ->
  ((exists f, In f features /\ id_property f = None) ->
   mapHandler Sprintf_1f r (inr intensities) (Loaded features) = Panicked) /\
  (Forall has_id features ->
   Forall (fun f => labelCenter (geometry f) <> Panicked) features ->
   exists scaleMap b img,
     buildScaleMap intensities ∅ = Returned scaleMap /\
     calculateBounds features scaleMap = Returned b /\
     mapHandler Sprintf_1f r (inr intensities) (Loaded features)
     = Returned img /\
     let multiplier := multiplier_of (query_size r) in
     let w := int_of_float64 (1280 * multiplier) in
     let h := int_of_float64 (720 * multiplier) in
     svgData img
     = SvgStart w h :: SvgRect 0 0 w h "fill:#18181b"
         :: map (region_path Sprintf_1f multiplier scaleMap
                   (funcToScreen (1280 * multiplier) (720 * multiplier) b))
              features
         ++ [SvgEnd]) /\
  (forall type_name b toScreen,
     widen_geometry b (OtherGeometry type_name) = b /\
     buildPaths Sprintf_1f toScreen (OtherGeometry type_name) = [] /\
     labelCenter (OtherGeometry type_name) = Returned (0%R, 0%R)).
Proof.
  intros Hscale Hvalid.
  pose proof (buildScaleMap_valid intensities Hvalid ∅) as Hmap.
  set (scaleMap := foldl (fun m q => <[ID q := Scale q]> m) ∅ intensities)
    in Hmap.
  split; [|split].
  - intros Hbad. unfold mapHandler.
    destruct (decide (query_scale r = "")) as [He | _]; [contradiction|].
    rewrite Hmap. cbn [bind]. unfold calculateBounds.
    rewrite (calculateBounds_loop_panics scaleMap features Hbad).
    reflexivity.
  - intros Hids Hcenters.
    destruct (calculateBounds_loop_spec scaleMap features Hids
                (mkBounds 180 90 (-180) (-90))) as (b & Hb & _).
    set (multiplier := multiplier_of (query_size r)).
    set (toScreen :=
           funcToScreen (1280 * multiplier) (720 * multiplier) b).
    destruct (scaleLabels_returns scaleMap toScreen features Hids Hcenters)
      as (labels & Hlabels).
    pose proof (composeScene_returns Sprintf_1f multiplier scaleMap toScreen
                  (1280 * multiplier) (720 * multiplier) features Hids)
      as Hscene.
    exists scaleMap, b.
    unfold mapHandler.
    destruct (decide (query_scale r = "")) as [He | _]; [contradiction|].
    change (calculateBounds features scaleMap = Returned b) in Hb.
    rewrite Hmap. cbn [bind]. rewrite !Hb.
    cbn [bind]. fold multiplier. fold toScreen. rewrite Hscene. cbn [bind].
    unfold svgToPNG. rewrite Hlabels.
    destruct (bool_decide (query_scale_text r = "true")); cbn [bind];
      eexists; (split; [reflexivity|]); (split; [reflexivity|]);
      (split; reflexivity).
  - intros type_name b toScreen. repeat split.
Qed.

End Handler.

(** ** The properties on the sample inputs *)

Lemma multiplier_of_default : multiplier_of "" = 1%R.
Proof. reflexivity. Qed.

Lemma scale_at_empty (id : Z) : scale_at ∅ id = 0%Z.
Proof. unfold scale_at. now rewrite lookup_empty. Qed.

Lemma sample_features_have_ids : Forall has_id sample_features.
Proof.
  repeat (apply List.Forall_cons; [eexists; reflexivity|]).
  apply List.Forall_nil.
Qed.

(** C9, as stated, fails on a dataset whose only feature is a point: the
    request with an empty intensity list is answered with an image, whose
    scene holds the background and an empty path for the feature. *)
Lemma point_geometry_does_not_fail_request :
  exists img,
    mapHandler sample_Sprintf_1f sample_request (inr [])
      (Loaded [point_feature])
    = Returned img /\
    svgData img
    = [ SvgStart 1280 720; SvgRect 0 0 1280 720 "fill:#18181b";
        SvgPath "" (region_style sample_Sprintf_1f 1 "#27272a"); SvgEnd ].
Proof.
  unfold mapHandler, sample_request.
  cbn [query_scale query_size query_footer query_scale_text].
  destruct (decide ("[]" = "")) as [He | _]; [discriminate He|].
  cbn [buildScaleMap bind]. rewrite multiplier_of_default.
  replace (1280 * 1)%R with 1280%R by lra.
  replace (720 * 1)%R with 720%R by lra.
  assert (Hid : Forall has_id [point_feature]).
  { apply List.Forall_cons; [eexists; reflexivity | apply List.Forall_nil]. }
  unfold calculateBounds.
  rewrite calculateBounds_loop_idle; [|exact Hid|].
  2: { intros f _ (idf & _ & Hactive). apply Hactive. apply scale_at_empty. }
  cbn [bind]. rewrite composeScene_returns by exact Hid. cbn [bind].
  rewrite !int_of_float64_IZR.
  eexists. split; [reflexivity|].
  cbn [svgData map app]. unfold region_path, point_feature.
  cbn [id_property geometry buildPaths region_data fold_right].
  rewrite scale_at_empty. reflexivity.
Qed.

(** The bounds of the samples hold the polygon of prefecture 13. *)
Lemma calculateBounds_holds_active_ignores_inactive_witness :
  exists b,
    calculateBounds sample_features sample_scaleMap = Returned b /\
    (forall f p, In f sample_features -> active sample_scaleMap f ->
                 In p (vertices (geometry f)) -> within b p) /\
    (forall features',
       Forall2 (same_unless_inactive sample_scaleMap)
         sample_features features' ->
       calculateBounds features' sample_scaleMap = Returned b).
Proof.
  apply (calculateBounds_holds_active_ignores_inactive
           sample_features sample_scaleMap).
  exact sample_features_have_ids.
Defined.

(** With the empty assignment no sample feature is active. *)
Lemma calculateBounds_without_active_region_witness :
  exists b,
    calculateBounds sample_features ∅ = Returned b /\
    b = mkBounds 180 90 (-180) (-90) /\
    (minLon b > maxLon b)%R /\ (minLat b > maxLat b)%R.
Proof.
  apply (calculateBounds_without_active_region sample_features ∅).
  - exact sample_features_have_ids.
  - intros f _ (idf & _ & Hactive). apply Hactive. apply scale_at_empty.
Defined.

(** Prefecture 13 given twice: level 3, then level 5. *)
Lemma buildScaleMap_last_pair_wins_witness :
  exists scaleMap,
    buildScaleMap
      [mkIntensityQuery 13 3; mkIntensityQuery 1 2; mkIntensityQuery 13 5] ∅
    = Returned scaleMap /\
    scaleMap !! 13%Z = Some 5%Z.
Proof.
  destruct (buildScaleMap_last_pair_wins
              [mkIntensityQuery 13 3; mkIntensityQuery 1 2;
               mkIntensityQuery 13 5])
    as (scaleMap & Hrun & Hlast & _).
  - repeat (apply List.Forall_cons;
            [unfold valid_intensity; simpl; lia|]).
    apply List.Forall_nil.
  - exists scaleMap. split; [exact Hrun|]. rewrite Hlast. reflexivity.
Defined.

Lemma sample_levels_in_range : levels_in_range sample_scaleMap.
Proof.
  unfold levels_in_range, sample_scaleMap.
  apply map_Forall_singleton. lia.
Qed.

(** The labels of the samples: one, for prefecture 13. *)
Lemma svgToPNG_labels_regions_above_zero_witness :
  exists labels,
    svgToPNG [] 1280 720 "" true 1 sample_features sample_scaleMap
      (funcToScreen 1280 720 (mkBounds 139 35 140 36))
    = Returned (mkImage [] 1280 720 (14 * 1)%R
                  (labels ++ [footer "" 1 720])) /\
    Forall2 (label_of sample_scaleMap
               (funcToScreen 1280 720 (mkBounds 139 35 140 36)))
      (List.filter (labelled sample_scaleMap) sample_features) labels.
Proof.
  apply (svgToPNG_labels_regions_above_zero sample_scaleMap
           (funcToScreen 1280 720 (mkBounds 139 35 140 36))
           sample_levels_in_range [] 1280 720 "" 1 sample_features).
  - exact sample_features_have_ids.
  - repeat (apply List.Forall_cons; [intros _; eexists; reflexivity|]).
    apply List.Forall_nil.
Defined.

(** A dataset with a feature without id makes the handler panic. *)
Lemma mapHandler_fails_without_id_not_on_geometry_type_witness :
  mapHandler sample_Sprintf_1f sample_request (inr [])
    (Loaded [anonymous_feature])
  = Panicked.
Proof.
  apply (mapHandler_fails_without_id_not_on_geometry_type
           sample_Sprintf_1f sample_request [] [anonymous_feature]).
  - discriminate.
  - apply List.Forall_nil.
  - exists anonymous_feature. split; [now left | reflexivity].
Defined.

(** * Further properties *)

(** ** [min] and [max] *)

(** X1.  [min] returns one of its arguments, at most the other one; [max]
    returns one of its arguments, at least the other one. *)
Theorem min_max_select (a b : R) :
  ((min a b = a \/ min a b = b) /\ (min a b <= a)%R /\ (min a b <= b)%R) /\
  ((max a b = a \/ max a b = b) /\ (a <= max a b)%R /\ (b <= max a b)%R).
Proof.
  unfold min, max.
  destruct (Rlt_dec a b), (Rgt_dec a b); repeat split; auto; lra.
Qed.

(** ** [calculateBounds]: the bounds are tight *)

Section Sides.

(** A side of the bounds and the coordinate it follows. *)
Variable side : Bounds -> R.
Variable coordinate : Position -> R.

Hypothesis widen_side :
  forall b p, side (widen b p) = side b \/ coordinate p = side (widen b p).

Lemma fold_left_attains {A : Type} (step : Bounds -> A -> Bounds)
    (points : A -> list Position) :
  (forall b a, side (step b a) = side b \/
               exists p, In p (points a) /\ coordinate p = side (step b a)) ->
  forall l b,
    side (fold_left step l b) = side b \/
    exists a p, In a l /\ In p (points a) /\
                coordinate p = side (fold_left step l b).
Proof.
  intros Hstep l. induction l as [|a l IH]; intros b; simpl.
  - now left.
  - destruct (IH (step b a)) as [Hsame | (a' & p & Ha' & Hp & Heq)].
    + rewrite Hsame.
      destruct (Hstep b a) as [Hb | (p & Hp & Heq)]; [now left|].
      right. exists a, p. auto.
    + right. exists a', p. auto.
Qed.

Lemma widen_ring_attains (b : Bounds) (ring : Ring) :
  side (widen_ring b ring) = side b \/
  exists p, In p ring /\ coordinate p = side (widen_ring b ring).
Proof.
  destruct (fold_left_attains widen (fun p => [p])) with (l := ring) (b := b)
    as [Hsame | (a & p & Ha & [<- | []] & Heq)].
  - intros b0 p. destruct (widen_side b0 p) as [H | H]; [now left|].
    right. exists p. split; [now left | exact H].
  - now left.
  - right. exists a. auto.
Qed.

Lemma widen_polygon_attains (b : Bounds) (rings : list Ring) :
  side (widen_polygon b rings) = side b \/
  exists p, In p (concat rings) /\ coordinate p = side (widen_polygon b rings).
Proof.
  destruct (fold_left_attains widen_ring (fun ring => ring))
    with (l := rings) (b := b) as [Hsame | (ring & p & Hring & Hp & Heq)].
  - intros b0 ring. apply widen_ring_attains.
  - now left.
  - right. exists p. split; [|exact Heq]. apply in_concat. eauto.
Qed.

Lemma widen_geometry_attains (b : Bounds) (g : Geometry) :
  side (widen_geometry b g) = side b \/
  exists p, In p (vertices g) /\ coordinate p = side (widen_geometry b g).
Proof.
  destruct g as [rings | polygons | name]; unfold vertices; simpl.
  - apply widen_polygon_attains.
  - destruct (fold_left_attains widen_polygon (fun rings => concat rings))
      with (l := polygons) (b := b)
      as [Hsame | (rings & p & Hrings & Hp & Heq)].
    + intros b0 rings. apply widen_polygon_attains.
    + now left.
    + right. exists p. split; [|exact Heq].
      apply in_concat in Hp as (ring & Hring & Hp).
      apply in_concat. exists ring. split; [|exact Hp].
      apply in_concat. eauto.
  - now left.
Qed.

Lemma calculateBounds_loop_attains (scaleMap : gmap Z Z)
    (features : list Feature) :
  forall b b',
    calculateBounds_loop features scaleMap b = Returned b' ->
    side b' = side b \/ attained features scaleMap coordinate (side b').
Proof.
  induction features as [|f features IH]; intros b b'; simpl.
  - intros [= <-]. now left.
  - destruct (id_property f) as [idf|] eqn:Hid; [|discriminate].
    destruct (decide (scale_at scaleMap (int_of_float64 idf) = 0%Z))
      as [Hzero | Hactive]; intros Hrun.
    + destruct (IH _ _ Hrun) as [Hsame | (f' & p & Hf' & Hact & Hp & Heq)];
        [now left|].
      right. exists f', p. repeat split; auto. now right.
    + destruct (IH _ _ Hrun) as [Hsame | (f' & p & Hf' & Hact & Hp & Heq)].
      * rewrite Hsame.
        destruct (widen_geometry_attains b (geometry f))
          as [Hb | (p & Hp & Heq)]; [now left|].
        right. exists f, p. repeat split; auto; [now left|].
        apply (active_iff _ _ _ Hid). exact Hactive.
      * right. exists f', p. repeat split; auto. now right.
Qed.

End Sides.

Lemma widen_minLon (b : Bounds) (p : Position) :
  minLon (widen b p) = minLon b \/ fst p = minLon (widen b p).
Proof. unfold widen, min; simpl. destruct (Rlt_dec _ _); auto. Qed.

Lemma widen_minLat (b : Bounds) (p : Position) :
  minLat (widen b p) = minLat b \/ snd p = minLat (widen b p).
Proof. unfold widen, min; simpl. destruct (Rlt_dec _ _); auto. Qed.

Lemma widen_maxLon (b : Bounds) (p : Position) :
  maxLon (widen b p) = maxLon b \/ fst p = maxLon (widen b p).
Proof. unfold widen, max; simpl. destruct (Rgt_dec _ _); auto. Qed.

Lemma widen_maxLat (b : Bounds) (p : Position) :
  maxLat (widen b p) = maxLat b \/ snd p = maxLat (widen b p).
Proof. unfold widen, max; simpl. destruct (Rgt_dec _ _); auto. Qed.

(** Either every feature has a numeric id or one has none. *)
Lemma ids_or_anonymous (features : list Feature) :
  Forall has_id features \/
  exists f, In f features /\ id_property f = None.
Proof.
  induction features as [|f features [IH | (f' & Hin & Hnone)]].
  - left. constructor.
  - destruct (id_property f) as [idf|] eqn:Hid.
    + left. constructor; [|exact IH]. exists idf. exact Hid.
    + right. exists f. split; [now left | exact Hid].
  - right. exists f'. split; [now right | exact Hnone].
Qed.

Lemma calculateBounds_returned_ids (features : list Feature)
    (scaleMap : gmap Z Z) (b : Bounds) :
  calculateBounds features scaleMap = Returned b -> Forall has_id features.
Proof.
  intros Hrun. destruct (ids_or_anonymous features) as [H | Hbad]; [exact H|].
  unfold calculateBounds in Hrun.
  rewrite (calculateBounds_loop_panics scaleMap features Hbad) in Hrun.
  discriminate Hrun.
Qed.

Lemma calculateBounds_sides (features : list Feature)
    (scaleMap : gmap Z Z) (b : Bounds) :
  calculateBounds features scaleMap = Returned b ->
  covers b (mkBounds 180 90 (-180) (-90)) /\
  (minLon b = 180%R \/ attained features scaleMap fst (minLon b)) /\
  (minLat b = 90%R \/ attained features scaleMap snd (minLat b)) /\
  (maxLon b = (-180)%R \/ attained features scaleMap fst (maxLon b)) /\
  (maxLat b = (-90)%R \/ attained features scaleMap snd (maxLat b)).
Proof.
  intros Hrun.
  pose proof (calculateBounds_returned_ids _ _ _ Hrun) as Hids.
  unfold calculateBounds in Hrun.
  destruct (calculateBounds_loop_spec scaleMap features Hids
              (mkBounds 180 90 (-180) (-90))) as (b' & Hrun' & Hcov & _).
  rewrite Hrun in Hrun'. injection Hrun' as <-.
  split; [exact Hcov|].
  split; [|split; [|split]].
  - apply (calculateBounds_loop_attains minLon fst widen_minLon _ _ _ _ Hrun).
  - apply (calculateBounds_loop_attains minLat snd widen_minLat _ _ _ _ Hrun).
  - apply (calculateBounds_loop_attains maxLon fst widen_maxLon _ _ _ _ Hrun).
  - apply (calculateBounds_loop_attains maxLat snd widen_maxLat _ _ _ _ Hrun).
Qed.

(** X2.  The bounds returned are tight: they never lie inside the initial
    values (minLon <= 180, minLat <= 90, maxLon >= -180, maxLat >= -90), and
    each side is either its initial value or the coordinate of a vertex of
    an active feature. *)
Theorem calculateBounds_tight (features : list Feature)
    (scaleMap : gmap Z Z) (b : Bounds) :
  calculateBounds features scaleMap = Returned b ->
  covers b (mkBounds 180 90 (-180) (-90)) /\
  (minLon b = 180%R \/ attained features scaleMap fst (minLon b)) /\
  (minLat b = 90%R \/ attained features scaleMap snd (minLat b)) /\
  (maxLon b = (-180)%R \/ attained features scaleMap fst (maxLon b)) /\
  (maxLat b = (-90)%R \/ attained features scaleMap snd (maxLat b)).
Proof.
  intros Hrun.
  pose proof (calculateBounds_returned_ids _ _ _ Hrun) as Hids.
  unfold calculateBounds in Hrun.
  destruct (calculateBounds_loop_spec scaleMap features Hids
              (mkBounds 180 90 (-180) (-90))) as (b' & Hrun' & Hcov & _).
  rewrite Hrun in Hrun'. injection Hrun' as <-.
  split; [exact Hcov|].
  split; [|split; [|split]].
  - apply (calculateBounds_loop_attains minLon fst widen_minLon _ _ _ _ Hrun).
  - apply (calculateBounds_loop_attains minLat snd widen_minLat _ _ _ _ Hrun).
  - apply (calculateBounds_loop_attains maxLon fst widen_maxLon _ _ _ _ Hrun).
  - apply (calculateBounds_loop_attains maxLat snd widen_maxLat _ _ _ _ Hrun).
Qed.

(** The bounds of the samples, where prefecture 13 is active. *)
Lemma calculateBounds_tight_witness :
  exists b,
    calculateBounds sample_features sample_scaleMap = Returned b /\
    covers b (mkBounds 180 90 (-180) (-90)) /\
    (minLon b = 180%R \/ attained sample_features sample_scaleMap fst
                           (minLon b)).
Proof.
  destruct (calculateBounds_loop_spec sample_scaleMap sample_features
              sample_features_have_ids (mkBounds 180 90 (-180) (-90)))
    as (b & Hrun & _).
  exists b. split; [exact Hrun|].
  destruct (calculateBounds_tight sample_features sample_scaleMap b Hrun)
    as (Hcov & Hlon & _).
  split; assumption.
Defined.

(** ** [calculateBounds]: feature order and failure *)

Lemma attained_below (features : list Feature) (scaleMap : gmap Z Z)
    (b : Bounds) (v : R) :
  (forall f p, In f features -> active scaleMap f ->
               In p (vertices (geometry f)) -> within b p) ->
  (attained features scaleMap fst v -> (minLon b <= v <= maxLon b)%R) /\
  (attained features scaleMap snd v -> (minLat b <= v <= maxLat b)%R).
Proof.
  intros Hin. split; intros (f & p & Hf & Hact & Hp & <-);
    destruct (Hin f p Hf Hact Hp) as [Hlon Hlat]; assumption.
Qed.

Lemma attained_permuted (features features' : list Feature)
    (scaleMap : gmap Z Z) (coordinate : Position -> R) (v : R) :
  Permutation features features' ->
  attained features scaleMap coordinate v ->
  attained features' scaleMap coordinate v.
Proof.
  intros Hperm (f & p & Hf & Hact & Hp & Heq).
  exists f, p. repeat split; auto.
  eapply Permutation_in; eassumption.
Qed.

(** Tight bounds over the same active vertices: each reaches as far as the
    other. *)
Lemma tight_bounds_covered (features features' : list Feature)
    (scaleMap : gmap Z Z) (b b' : Bounds) :
  Permutation features features' ->
  calculateBounds features scaleMap = Returned b ->
  calculateBounds features' scaleMap = Returned b' ->
  covers b' b.
Proof.
  intros Hperm Hb Hb'.
  destruct (calculateBounds_sides _ _ _ Hb)
    as (_ & HminLon & HminLat & HmaxLon & HmaxLat).
  pose proof (calculateBounds_returned_ids _ _ _ Hb') as Hids'.
  unfold calculateBounds in Hb'.
  destruct (calculateBounds_loop_spec scaleMap features' Hids'
              (mkBounds 180 90 (-180) (-90))) as (b0 & Hrun & Hcov & Hin).
  rewrite Hb' in Hrun. injection Hrun as <-.
  destruct Hcov as (H1 & H2 & H3 & H4). simpl in H1, H2, H3, H4.
  unfold covers. repeat split.
  - destruct HminLon as [-> | Hatt]; [exact H1|].
    apply (attained_permuted _ _ _ _ _ Hperm) in Hatt.
    now apply (attained_below _ _ _ _ Hin) in Hatt.
  - destruct HminLat as [-> | Hatt]; [exact H2|].
    apply (attained_permuted _ _ _ _ _ Hperm) in Hatt.
    now apply (attained_below _ _ _ _ Hin) in Hatt.
  - destruct HmaxLon as [-> | Hatt]; [exact H3|].
    apply (attained_permuted _ _ _ _ _ Hperm) in Hatt.
    now apply (attained_below _ _ _ _ Hin) in Hatt.
  - destruct HmaxLat as [-> | Hatt]; [exact H4|].
    apply (attained_permuted _ _ _ _ _ Hperm) in Hatt.
    now apply (attained_below _ _ _ _ Hin) in Hatt.
Qed.

Lemma calculateBounds_never_replies (features : list Feature)
    (scaleMap : gmap Z Z) :
  forall b status body,
    calculateBounds_loop features scaleMap b <> HttpError status body.
Proof.
  induction features as [|f features IH]; intros b status body; simpl.
  - discriminate.
  - destruct (id_property f); [|discriminate].
    destruct (decide _); apply IH.
Qed.

(** X3.  The bounds do not depend on the order of the features: on a
    permutation of the dataset [calculateBounds] gives the same outcome. *)
Theorem calculateBounds_permutation (features features' : list Feature)
    (scaleMap : gmap Z Z) :
  Permutation features features' ->
  calculateBounds features' scaleMap = calculateBounds features scaleMap.
Proof.
  intros Hperm.
  destruct (ids_or_anonymous features) as [Hids | Hbad].
  - assert (Hids' : Forall has_id features').
    { eapply Permutation_Forall; [|exact Hids].
      apply Permutation_sym in Hperm. now apply Permutation_sym. }
    destruct (calculateBounds_loop_spec scaleMap features Hids
                (mkBounds 180 90 (-180) (-90))) as (b & Hb & _).
    destruct (calculateBounds_loop_spec scaleMap features' Hids'
                (mkBounds 180 90 (-180) (-90))) as (b' & Hb' & _).
    change (calculateBounds features scaleMap = Returned b) in Hb.
    change (calculateBounds features' scaleMap = Returned b') in Hb'.
    pose proof (tight_bounds_covered _ _ _ _ _ Hperm Hb Hb') as H1.
    pose proof (tight_bounds_covered _ _ _ _ _
                  (Permutation_sym Hperm) Hb' Hb) as H2.
    rewrite Hb, Hb'. f_equal.
    destruct b, b'. unfold covers in H1, H2. simpl in H1, H2.
    f_equal; lra.
  - assert (Hbad' : exists f, In f features' /\ id_property f = None).
    { destruct Hbad as (f & Hin & Hnone). exists f. split; [|exact Hnone].
      eapply Permutation_in; eassumption. }
    unfold calculateBounds.
    rewrite (calculateBounds_loop_panics _ _ Hbad),
            (calculateBounds_loop_panics _ _ Hbad').
    reflexivity.
Qed.

(** The samples in the other order. *)
Lemma calculateBounds_permutation_witness :
  calculateBounds (rev sample_features) sample_scaleMap
  = calculateBounds sample_features sample_scaleMap.
Proof.
  apply (calculateBounds_permutation sample_features (rev sample_features)).
  apply Permutation_rev.
Defined.


(** ** The projector on regular bounds *)

(** What the projector computes on regular bounds: a non-negative scale
    [s] and a positive correction [c] such that both spans fit. *)
Lemma funcToScreen_regular (w h : R) (b : Bounds) :
  (0 <= w)%R -> (0 <= h)%R -> regular b ->
  exists c s : R,
    (0 < c)%R /\ (0 <= s)%R /\
    (0 <= (maxLon b - minLon b) * c * s <= w * 0.8)%R /\
    (0 <= (maxLat b - minLat b) * s <= h * 0.8)%R /\
    ((maxLon b - minLon b) * c * s = w * 0.8 \/
     (maxLat b - minLat b) * s = h * 0.8)%R /\
    forall lon lat,
      funcToScreen w h b lon lat
      = (((lon - (maxLon b + minLon b) / 2) * c * s + w / 2)%R,
         (((maxLat b + minLat b) / 2 - lat) * s + h / 2)%R).
Proof.
  intros Hw Hh (Hlon & Hlat & Hlo & Hhi).
  pose proof (lonCorrection_positive b Hlat Hlo Hhi) as Hc.
  set (c := cos ((maxLat b + minLat b) / 2 * PI / 180)) in *.
  set (dLon := (maxLon b - minLon b)%R).
  set (dLat := (maxLat b - minLat b)%R).
  assert (HdLon : (0 < dLon)%R) by (unfold dLon; lra).
  assert (HdLat : (0 < dLat)%R) by (unfold dLat; lra).
  pose proof (scale_fits w h dLon dLat c Hw Hh HdLon HdLat Hc) as Hfit.
  cbv zeta in Hfit.
  set (sx := (w * (1 - 2 * 0.1) / (dLon * c))%R) in *.
  set (sy := (h * (1 - 2 * 0.1) / dLat)%R) in *.
  exists c, (min sx sy).
  assert (Hs : (0 <= min sx sy)%R).
  { destruct Hfit as [_ [H0 _]]. nra. }
  split; [exact Hc|]. split; [exact Hs|].
  split; [apply Hfit|]. split; [apply Hfit|].
  split; [|reflexivity].
  assert (Hsx : (dLon * c * sx = w * 0.8)%R).
  { unfold sx. rewrite mul_div_cancel by nra. lra. }
  assert (Hsy : (dLat * sy = h * 0.8)%R).
  { unfold sy. rewrite mul_div_cancel by lra. lra. }
  unfold min. destruct (Rlt_dec sx sy); [left | right]; assumption.
Qed.

(** X5.  On regular bounds the centre of the bounds is projected onto the
    centre of the canvas. *)
Theorem funcToScreen_centre (CANVAS_WIDTH CANVAS_HEIGHT : R) (b : Bounds) :
  (0 <= CANVAS_WIDTH)%R -> (0 <= CANVAS_HEIGHT)%R -> regular b ->
  funcToScreen CANVAS_WIDTH CANVAS_HEIGHT b
    ((maxLon b + minLon b) / 2) ((maxLat b + minLat b) / 2)
  = ((CANVAS_WIDTH / 2)%R, (CANVAS_HEIGHT / 2)%R).
Proof.
  intros Hw Hh Hreg.
  destruct (funcToScreen_regular _ _ b Hw Hh Hreg)
    as (c & s & _ & _ & _ & _ & _ & Heq).
  rewrite Heq. f_equal.
  - rewrite Rminus_diag, !Rmult_0_l. lra.
  - rewrite Rminus_diag, Rmult_0_l. lra.
Qed.

Lemma funcToScreen_centre_witness :
  funcToScreen 1280 720 (mkBounds 129 31 146 46)
    ((146 + 129) / 2) ((46 + 31) / 2)
  = ((1280 / 2)%R, (720 / 2)%R).
Proof.
  apply (funcToScreen_centre 1280 720 (mkBounds 129 31 146 46));
    unfold regular; simpl; lra.
Defined.




(** X7.  On regular bounds east is to the right and north is up: the
    abscissa does not decrease with the longitude and does not depend on
    the latitude, the ordinate does not increase with the latitude and does
    not depend on the longitude. *)
Theorem funcToScreen_orientation
    (CANVAS_WIDTH CANVAS_HEIGHT : R) (b : Bounds) (lon lon' lat lat' : R) :
  (0 <= CANVAS_WIDTH)%R -> (0 <= CANVAS_HEIGHT)%R -> regular b ->
  (lon <= lon')%R -> (lat <= lat')%R ->
  (fst (funcToScreen CANVAS_WIDTH CANVAS_HEIGHT b lon lat)
   <= fst (funcToScreen CANVAS_WIDTH CANVAS_HEIGHT b lon' lat'))%R /\
  (snd (funcToScreen CANVAS_WIDTH CANVAS_HEIGHT b lon' lat')
   <= snd (funcToScreen CANVAS_WIDTH CANVAS_HEIGHT b lon lat))%R.
Proof.
  intros Hw Hh Hreg Hlon Hlat.
  destruct (funcToScreen_regular _ _ b Hw Hh Hreg)
    as (c & s & Hc & Hs & _ & _ & _ & Heq).
  rewrite !Heq. simpl.
  assert (Hcs : (0 <= c * s)%R) by nra.
  split; nra.
Qed.

Lemma funcToScreen_orientation_witness :
  (fst (funcToScreen 1280 720 (mkBounds 129 31 146 46) 135 34)
   <= fst (funcToScreen 1280 720 (mkBounds 129 31 146 46) 140 36))%R /\
  (snd (funcToScreen 1280 720 (mkBounds 129 31 146 46) 140 36)
   <= snd (funcToScreen 1280 720 (mkBounds 129 31 146 46) 135 34))%R.
Proof.
  apply (funcToScreen_orientation 1280 720 (mkBounds 129 31 146 46));
    unfold regular; simpl; lra.
Defined.





Lemma sample_scale_13 : scale_at sample_scaleMap 13 = 5%Z.
Proof. reflexivity. Qed.









(** ** The intensity assignment: what the loop guarantees *)

Lemma buildScaleMap_returned (intensities : list IntensityQuery) :
  forall scaleMap m,
    buildScaleMap intensities scaleMap = Returned m ->
    Forall valid_intensity intensities /\
    m = foldl (fun m q => <[ID q := Scale q]> m) scaleMap intensities.
Proof.
  induction intensities as [|q intensities IH]; intros scaleMap m; simpl.
  - intros [= <-]. split; [constructor | reflexivity].
  - destruct (Z.ltb_spec (Scale q) 0); [discriminate|].
    destruct (Z.gtb_spec (Scale q) 7); [discriminate|]. simpl.
    intros Hrun. destruct (IH _ _ Hrun) as [Hvalid ->].
    split; [|reflexivity].
    constructor; [unfold valid_intensity; lia | exact Hvalid].
Qed.

Lemma levels_in_range_inserted (intensities : list IntensityQuery) :
  Forall valid_intensity intensities ->
  forall scaleMap,
    levels_in_range scaleMap ->
    levels_in_range
      (foldl (fun m q => <[ID q := Scale q]> m) scaleMap intensities).
Proof.
  induction 1 as [|q intensities Hq _ IH]; intros scaleMap Hm; simpl.
  - exact Hm.
  - apply IH. unfold levels_in_range. apply map_Forall_insert_2; assumption.
Qed.

Lemma last_for_is_Some (intensities : list IntensityQuery) (id : Z) :
  is_Some (last_for id intensities) <->
  exists q, In q intensities /\ ID q = id.
Proof.
  unfold last_for. split.
  - intros [q Hq]. apply last_Some_elem_of in Hq.
    apply list_elem_of_filter in Hq as [Hid Hin].
    exists q. split; [apply list_elem_of_In; exact Hin | exact Hid].
  - intros (q & Hin & Hid).
    assert (Hq : q ∈ filter (fun q0 => ID q0 = id) intensities).
    { apply list_elem_of_filter. split; [exact Hid|].
      apply list_elem_of_In. exact Hin. }
    destruct (filter (fun q0 => ID q0 = id) intensities) as [|a l] eqn:Hf.
    + inversion Hq.
    + rewrite last_cons. destruct (last l); eauto.
Qed.

(** X10.  An assignment that the handler has built holds only levels
    between 0 and 7, every pair of the list was in range, and the ids it
    maps are exactly those of the list. *)
Theorem buildScaleMap_invariant (intensities : list IntensityQuery)
    (scaleMap : gmap Z Z) :
  buildScaleMap intensities ∅ = Returned scaleMap ->
  levels_in_range scaleMap /\
  Forall valid_intensity intensities /\
  (forall id, is_Some (scaleMap !! id) <->
              exists q, In q intensities /\ ID q = id).
Proof.
  intros Hrun. destruct (buildScaleMap_returned _ _ _ Hrun) as [Hvalid ->].
  split; [|split; [exact Hvalid|]].
  - apply levels_in_range_inserted; [exact Hvalid|].
    unfold levels_in_range. apply map_Forall_empty.
  - intros id. rewrite lookup_inserted, <- last_for_is_Some.
    destruct (last_for id intensities) as [q|].
    + split; eauto.
    + rewrite lookup_empty. split; intros [x Hx]; discriminate Hx.
Qed.

Lemma sample_assignment :
  buildScaleMap sample_intensities ∅ = Returned sample_scaleMap.
Proof. reflexivity. Qed.

Lemma buildScaleMap_invariant_witness :
  levels_in_range sample_scaleMap /\
  Forall valid_intensity sample_intensities.
Proof.
  destruct (buildScaleMap_invariant sample_intensities sample_scaleMap
              sample_assignment) as (Hlevels & Hvalid & _).
  split; assumption.
Defined.

Lemma buildScaleMap_rejects (good rest : list IntensityQuery)
    (bad : IntensityQuery) :
  Forall valid_intensity good -> ~ valid_intensity bad ->
  forall scaleMap,
    buildScaleMap (good ++ bad :: rest) scaleMap
    = HttpError 400
        ("Invalid scale value for ID " +:+ Sprintf_d (ID bad)
           +:+ ": " +:+ Sprintf_d (Scale bad)).
Proof.
  intros Hgood Hbad.
  induction Hgood as [|q good Hq _ IH]; intros scaleMap; simpl.
  - unfold valid_intensity in Hbad.
    destruct (Z.ltb_spec (Scale bad) 0); [reflexivity|].
    destruct (Z.gtb_spec (Scale bad) 7); [reflexivity | lia].
  - unfold valid_intensity in Hq.
    destruct (Z.ltb_spec (Scale q) 0); [lia|].
    destruct (Z.gtb_spec (Scale q) 7); [lia|]. simpl. apply IH.
Qed.

(** X11.  A scale outside 0..7 is refused before anything else is looked
    at: the handler answers 400 with the message of the first pair out of
    range, whatever follows it in the list and whatever the dataset is,
    even one that cannot be read. *)
Theorem mapHandler_rejects_first_invalid_pair
    (Sprintf_1f : R -> string) (r : Request)
    (good rest : list IntensityQuery) (bad : IntensityQuery)
    (japan : Dataset) :
  query_scale r <> "" ->
  Forall valid_intensity good -> ~ valid_intensity bad ->
  mapHandler Sprintf_1f r (inr (good ++ bad :: rest)) japan
  = invalid_scale_reply bad.
Proof.
  intros Hscale Hgood Hbad. unfold mapHandler.
  destruct (decide (query_scale r = "")) as [He | _]; [contradiction|].
  rewrite (buildScaleMap_rejects good rest bad Hgood Hbad). reflexivity.
Qed.

(** Level 9 for prefecture 1, after a valid pair, with no dataset. *)
Lemma mapHandler_rejects_first_invalid_pair_witness :
  mapHandler sample_Sprintf_1f sample_request
    (inr ([mkIntensityQuery 13 5] ++ mkIntensityQuery 1 9 :: []))
    (ReadFailed "open japan.geojson: no such file or directory")
  = HttpError 400 "Invalid scale value for ID 1: 9".
Proof.
  apply (mapHandler_rejects_first_invalid_pair sample_Sprintf_1f
           sample_request [mkIntensityQuery 13 5] []
           (mkIntensityQuery 1 9)).
  - discriminate.
  - apply List.Forall_cons; [unfold valid_intensity; simpl; lia|].
    apply List.Forall_nil.
  - unfold valid_intensity; simpl; lia.
Defined.

(** ** The handler: its replies *)

Lemma labelCenter_never_replies (g : Geometry) (status : Z) (body : string) :
  labelCenter g <> HttpError status body.
Proof.
  destruct g as [[|r rings] | [|[|r rings] polygons] | name];
    simpl; discriminate.
Qed.

Lemma scaleLabels_never_replies (scaleMap : gmap Z Z)
    (toScreen : R -> R -> R * R) (features : list Feature)
    (status : Z) (body : string) :
  scaleLabels features scaleMap toScreen <> HttpError status body.
Proof.
  induction features as [|f features IH]; simpl; [discriminate|].
  destruct (id_property f); [|discriminate].
  destruct (scaleMap !! _) as [scale|]; [|exact IH].
  destruct (decide (scale = 0%Z)); [exact IH|].
  destruct (labelCenter (geometry f)) as [center | | st bd] eqn:Hc; simpl.
  - destruct (scaleLabels features scaleMap toScreen); simpl;
      [discriminate | discriminate | exact IH].
  - discriminate.
  - exfalso. exact (labelCenter_never_replies _ _ _ Hc).
Qed.

Lemma buildScaleMap_replies (intensities : list IntensityQuery) :
  forall scaleMap,
    buildScaleMap intensities scaleMap <> Panicked /\
    forall status body,
      buildScaleMap intensities scaleMap = HttpError status body ->
      status = 400%Z /\
      exists good bad rest,
        intensities = good ++ bad :: rest /\
        Forall valid_intensity good /\ ~ valid_intensity bad /\
        body = "Invalid scale value for ID " +:+ Sprintf_d (ID bad)
                 +:+ ": " +:+ Sprintf_d (Scale bad).
Proof.
  induction intensities as [|q intensities IH]; intros scaleMap; simpl.
  - split; [discriminate | intros status body H; discriminate H].
  - destruct ((Scale q <? 0)%Z || (Scale q >? 7)%Z) eqn:Hq.
    + split; [discriminate|]. intros status body [= <- <-].
      split; [reflexivity|]. exists [], q, intensities.
      split; [reflexivity|]. split; [constructor|].
      split; [|reflexivity].
      unfold valid_intensity. apply orb_true_iff in Hq as [H | H]; lia.
    + destruct (IH (<[ID q := Scale q]> scaleMap)) as [Hpanic Hreply].
      split; [exact Hpanic|]. intros status body H.
      destruct (Hreply status body H)
        as (Hst & good & bad & rest & -> & Hgood & Hbad & Hbody).
      split; [exact Hst|]. exists (q :: good), bad, rest.
      split; [reflexivity|]. split; [|auto].
      constructor; [|exact Hgood].
      unfold valid_intensity. apply orb_false_iff in Hq as [H1 H2]. lia.
Qed.

Section Replies.

Variable Sprintf_1f : R -> string.

(** What an image reply says about the request, the dataset and the
    image. *)
Lemma mapHandler_returned (r : Request)
    (decoded : string + list IntensityQuery) (japan : Dataset)
    (img : Image) :
  mapHandler Sprintf_1f r decoded japan = Returned img ->
  exists intensities scaleMap features b labels,
    query_scale r <> "" /\ decoded = inr intensities /\
    buildScaleMap intensities ∅ = Returned scaleMap /\
    japan = Loaded features /\
    calculateBounds features scaleMap = Returned b /\
    let multiplier := multiplier_of (query_size r) in
    let w := int_of_float64 (1280 * multiplier) in
    let h := int_of_float64 (720 * multiplier) in
    let toScreen :=
      funcToScreen (1280 * multiplier) (720 * multiplier) b in
    (if bool_decide (query_scale_text r = "true")
     then scaleLabels features scaleMap toScreen
     else Returned []) = Returned labels /\
    img = mkImage
            (SvgStart w h :: SvgRect 0 0 w h "fill:#18181b"
               :: map (region_path Sprintf_1f multiplier scaleMap toScreen)
                    features
               ++ [SvgEnd])
            w h (14 * multiplier)%R
            (labels ++ [footer (query_footer r) multiplier h]).
Proof.
  unfold mapHandler.
  destruct (decide (query_scale r = "")) as [He | Hne]; [discriminate|].
  destruct decoded as [err | intensities]; [discriminate|].
  destruct (buildScaleMap intensities ∅) as [scaleMap | | st bd] eqn:Hmap;
    cbn [bind]; [|discriminate | discriminate].
  destruct japan as [err | err | features]; [discriminate | discriminate |].
  destruct (calculateBounds features scaleMap) as [b | | st bd] eqn:Hb;
    cbn [bind]; [|discriminate | discriminate].
  rewrite composeScene_returns
    by (eapply calculateBounds_returned_ids; exact Hb).
  cbn [bind]. unfold svgToPNG.
  destruct (if bool_decide (query_scale_text r = "true")
            then scaleLabels features scaleMap _ else Returned [])
    as [labels | | st bd] eqn:Hlabels; cbn [bind];
    [|discriminate | discriminate].
  intros [= <-].
  exists intensities, scaleMap, features, b, labels.
  repeat (split; [first [assumption | reflexivity]|]). reflexivity.
Qed.

(** X12.  An image reply has the size of its size class: 2560 x 1440 for
    size 2, 5120 x 2880 for size 3, and 1280 x 720 for size 1 and for every
    other value of the parameter, a missing one included. *)
Theorem mapHandler_image_size (r : Request)
    (decoded : string + list IntensityQuery) (japan : Dataset)
    (img : Image) :
  mapHandler Sprintf_1f r decoded japan = Returned img ->
  (width img, height img)
  = if decide (query_size r = "2") then (2560, 1440)%Z
    else if decide (query_size r = "3") then (5120, 2880)%Z
    else (1280, 720)%Z.
Proof.
  intros Hrun.
  destruct (mapHandler_returned _ _ _ _ Hrun)
    as (intensities & scaleMap & features & b & labels & _ & _ & _ & _ & _
        & _ & ->).
  cbn [width height]. unfold multiplier_of.
  destruct (decide (query_size r = "1")) as [-> | H1].
  - destruct (decide ("1" = "2")) as [H | _]; [discriminate H|].
    destruct (decide ("1" = "3")) as [H | _]; [discriminate H|].
    replace (1280 * 1)%R with 1280%R by lra.
    replace (720 * 1)%R with 720%R by lra.
    now rewrite !int_of_float64_IZR.
  - destruct (decide (query_size r = "2")) as [H2 | H2].
    + replace (1280 * 2)%R with 2560%R by lra.
      replace (720 * 2)%R with 1440%R by lra.
      now rewrite !int_of_float64_IZR.
    + destruct (decide (query_size r = "3")) as [H3 | H3].
      * replace (1280 * 4)%R with 5120%R by lra.
        replace (720 * 4)%R with 2880%R by lra.
        now rewrite !int_of_float64_IZR.
      * replace (1280 * 1)%R with 1280%R by lra.
        replace (720 * 1)%R with 720%R by lra.
        now rewrite !int_of_float64_IZR.
Qed.

(** X13.  In an image reply the footer is the last string drawn: the text
    of the [footer] parameter, or the licence notice when the parameter is
    empty, at 10 times the multiplier from the left and 14 times the
    multiplier above the bottom.  Unless [scale_text] is exactly "true" it
    is the only string drawn. *)
Theorem mapHandler_footer_last (r : Request)
    (decoded : string + list IntensityQuery) (japan : Dataset)
    (img : Image) :
  mapHandler Sprintf_1f r decoded japan = Returned img ->
  let multiplier := multiplier_of (query_size r) in
  let caption :=
    mkDrawString
      (if decide (query_footer r = "")
       then "Code available under the MIT License (GitHub: evacuate)."
       else query_footer r)
      (int_of_float64 (10 * multiplier),
       (height img - int_of_float64 (14 * multiplier))%Z) in
  last (strings img) = Some caption /\
  (query_scale_text r <> "true" -> strings img = [caption]).
Proof.
  intros Hrun multiplier caption. unfold caption, multiplier.
  destruct (mapHandler_returned _ _ _ _ Hrun)
    as (intensities & scaleMap & features & b & labels & _ & _ & _ & _ & _
        & Hlabels & ->).
  cbn [strings height]. split.
  - rewrite last_app. reflexivity.
  - intros Hflag. rewrite bool_decide_eq_false_2 in Hlabels by exact Hflag.
    injection Hlabels as <-. reflexivity.
Qed.

End Replies.

Lemma intensityToColor_in_palette (level : Z) :
  (0 <= level <= 7)%Z -> In (intensityToColor level) palette.
Proof.
  intros H.
  assert (Hcases : level = 0%Z \/ level = 1%Z \/ level = 2%Z \/ level = 3%Z
                   \/ level = 4%Z \/ level = 5%Z \/ level = 6%Z
                   \/ level = 7%Z) by lia.
  repeat destruct Hcases as [-> | Hcases]; try subst level;
    unfold palette; simpl; tauto.
Qed.

Lemma scale_at_in_range (scaleMap : gmap Z Z) (id : Z) :
  levels_in_range scaleMap -> (0 <= scale_at scaleMap id <= 7)%Z.
Proof.
  intros Hlevels. unfold scale_at.
  destruct (scaleMap !! id) as [level|] eqn:Hlookup; simpl; [|lia].
  exact (Hlevels _ _ Hlookup).
Qed.

Lemma buildScaleMap_levels (intensities : list IntensityQuery)
    (scaleMap : gmap Z Z) :
  buildScaleMap intensities ∅ = Returned scaleMap ->
  levels_in_range scaleMap.
Proof.
  intros Hrun. destruct (buildScaleMap_returned _ _ _ Hrun) as [Hvalid ->].
  apply levels_in_range_inserted; [exact Hvalid|].
  unfold levels_in_range. apply map_Forall_empty.
Qed.

(** An image is returned when the request is valid, every feature has a
    numeric id and no label centre is out of range. *)
Lemma mapHandler_replies_image (Sprintf_1f : R -> string) (r : Request)
    (intensities : list IntensityQuery) (features : list Feature) :
  query_scale r <> "" ->
  Forall valid_intensity intensities ->
  Forall has_id features ->
  query_scale_text r <> "true" \/
  Forall (fun f => labelCenter (geometry f) <> Panicked) features ->
  exists img,
    mapHandler Sprintf_1f r (inr intensities) (Loaded features)
    = Returned img.
Proof.
  intros Hscale Hvalid Hids Hlabels.
  pose proof (buildScaleMap_valid intensities Hvalid ∅) as Hmap.
  set (scaleMap := foldl (fun m q => <[ID q := Scale q]> m) ∅ intensities)
    in Hmap.
  destruct (calculateBounds_loop_spec scaleMap features Hids
              (mkBounds 180 90 (-180) (-90))) as (b & Hb & _).
  change (calculateBounds features scaleMap = Returned b) in Hb.
  unfold mapHandler.
  destruct (decide (query_scale r = "")) as [He | _]; [contradiction|].
  rewrite Hmap. cbn [bind]. rewrite Hb. cbn [bind].
  rewrite composeScene_returns by exact Hids. cbn [bind].
  unfold svgToPNG.
  destruct Hlabels as [Hflag | Hcenters].
  - rewrite bool_decide_eq_false_2 by exact Hflag. cbn [bind]. eauto.
  - destruct (scaleLabels_returns scaleMap
                (funcToScreen (1280 * multiplier_of (query_size r))
                   (720 * multiplier_of (query_size r)) b)
                features Hids Hcenters) as (labels & ->).
    destruct (bool_decide (query_scale_text r = "true")); cbn [bind]; eauto.
Qed.

Lemma sample_centers :
  Forall (fun f => labelCenter (geometry f) <> Panicked) sample_features.
Proof.
  repeat (apply List.Forall_cons; [discriminate|]). apply List.Forall_nil.
Qed.

(** The reply to the sample request on the sample dataset. *)
Lemma sample_reply :
  exists img,
    mapHandler sample_Sprintf_1f sample_request (inr [])
      (Loaded sample_features)
    = Returned img.
Proof.
  apply mapHandler_replies_image.
  - discriminate.
  - apply List.Forall_nil.
  - exact sample_features_have_ids.
  - right. exact sample_centers.
Qed.

Lemma mapHandler_image_size_witness :
  exists img,
    mapHandler sample_Sprintf_1f sample_request (inr [])
      (Loaded sample_features)
    = Returned img /\
    (width img, height img) = (1280, 720)%Z.
Proof.
  destruct sample_reply as [img Hrun]. exists img. split; [exact Hrun|].
  exact (mapHandler_image_size sample_Sprintf_1f sample_request (inr [])
           (Loaded sample_features) img Hrun).
Defined.

Lemma mapHandler_footer_last_witness :
  exists img,
    mapHandler sample_Sprintf_1f sample_request (inr [])
      (Loaded sample_features)
    = Returned img /\
    strings img
    = [mkDrawString
         "Code available under the MIT License (GitHub: evacuate)."
         (int_of_float64 (10 * 1),
          (height img - int_of_float64 (14 * 1))%Z)].
Proof.
  destruct sample_reply as [img Hrun]. exists img. split; [exact Hrun|].
  destruct (mapHandler_footer_last sample_Sprintf_1f sample_request (inr [])
              (Loaded sample_features) img Hrun) as [_ Honly].
  apply Honly. discriminate.
Defined.

Section Fills.

Variable Sprintf_1f : R -> string.

(** X14.  In an image reply every region is filled with one of the eight
    palette colours: the fallback colours of [intensityToColor] are never
    used by the handler. *)
Theorem mapHandler_fills_from_palette (r : Request)
    (decoded : string + list IntensityQuery) (japan : Dataset)
    (img : Image) :
  mapHandler Sprintf_1f r decoded japan = Returned img ->
  Forall (filled_from_palette Sprintf_1f (multiplier_of (query_size r)))
    (svgData img).
Proof.
  intros Hrun.
  destruct (mapHandler_returned _ _ _ _ _ Hrun)
    as (intensities & scaleMap & features & b & labels & _ & _ & Hmap & _
        & _ & _ & ->).
  pose proof (buildScaleMap_levels _ _ Hmap) as Hlevels.
  cbn [svgData].
  apply List.Forall_cons; [exact I|].
  apply List.Forall_cons; [exact I|].
  apply Forall_app. split.
  - apply Forall_forall. intros op Hop.
    apply list_elem_of_In in Hop. apply in_map_iff in Hop as (f & <- & _).
    unfold region_path, filled_from_palette.
    eexists. split; [|reflexivity].
    apply intensityToColor_in_palette.
    destruct (id_property f); [|lia].
    apply scale_at_in_range. exact Hlevels.
  - apply List.Forall_cons; [exact I | apply List.Forall_nil].
Qed.

(** The error replies that the handler can send. *)
Lemma mapHandler_error_causes (r : Request)
    (decoded : string + list IntensityQuery) (japan : Dataset)
    (status : Z) (body : string) :
  mapHandler Sprintf_1f r decoded japan = HttpError status body ->
  (status = 400%Z /\
   ((query_scale r = "" /\ body = "scale parameter is required") \/
    (query_scale r <> "" /\
     exists err, decoded = inl err /\
                 body = "Invalid scale data format: " +:+ err) \/
    (query_scale r <> "" /\
     exists good bad rest,
       decoded = inr (good ++ bad :: rest) /\
       Forall valid_intensity good /\ ~ valid_intensity bad /\
       HttpError status body = invalid_scale_reply bad))) \/
  (status = 500%Z /\
   ((exists err, japan = ReadFailed err /\
                 body = "Failed to read geojson: " +:+ err) \/
    (exists err, japan = UnmarshalFailed err /\
                 body = "Failed to unmarshal geojson: " +:+ err))).
Proof.
  unfold mapHandler.
  destruct (decide (query_scale r = "")) as [He | Hne].
  { intros [= <- <-]. left. split; [reflexivity|].
    left. split; [exact He | reflexivity]. }
  destruct decoded as [err | intensities].
  { intros [= <- <-]. left. split; [reflexivity|].
    right. left. split; [exact Hne|]. exists err. split; reflexivity. }
  destruct (buildScaleMap_replies intensities ∅) as [Hpanic Hreply].
  destruct (buildScaleMap intensities ∅) as [scaleMap | | st bd] eqn:Hmap;
    cbn [bind]; [|contradiction|].
  2: { intros [= <- <-].
       destruct (Hreply st bd eq_refl)
         as (-> & good & bad & rest & -> & Hgood & Hbad & ->).
       left. split; [reflexivity|].
       right. right. split; [exact Hne|].
       exists good, bad, rest. auto. }
  destruct japan as [err | err | features].
  { intros [= <- <-]. right. split; [reflexivity|].
    left. exists err. split; reflexivity. }
  { intros [= <- <-]. right. split; [reflexivity|].
    right. exists err. split; reflexivity. }
  destruct (calculateBounds features scaleMap) as [b | | st bd] eqn:Hb;
    cbn [bind]; [|discriminate|].
  2: { exfalso. exact (calculateBounds_never_replies _ _ _ _ _ Hb). }
  rewrite composeScene_returns
    by (eapply calculateBounds_returned_ids; exact Hb).
  cbn [bind]. unfold svgToPNG.
  destruct (if bool_decide (query_scale_text r = "true")
            then scaleLabels features scaleMap _ else Returned [])
    as [labels | | st bd] eqn:Hlabels; cbn [bind];
    [discriminate | discriminate |].
  exfalso. destruct (bool_decide (query_scale_text r = "true"));
    [|discriminate Hlabels].
  exact (scaleLabels_never_replies _ _ _ _ _ Hlabels).
Qed.

(** X15.  The handler answers 400 in three cases and no other: the [scale]
    parameter is missing or empty; it does not decode; or, read in order,
    one of its pairs is the first with a scale outside 0..7, which the
    message then names.  The dataset plays no part in it. *)
Theorem mapHandler_bad_request (r : Request)
    (decoded : string + list IntensityQuery) (japan : Dataset)
    (body : string) :
  mapHandler Sprintf_1f r decoded japan = HttpError 400 body <->
  (query_scale r = "" /\ body = "scale parameter is required") \/
  (query_scale r <> "" /\
   exists err, decoded = inl err /\
               body = "Invalid scale data format: " +:+ err) \/
  (query_scale r <> "" /\
   exists good bad rest,
     decoded = inr (good ++ bad :: rest) /\
     Forall valid_intensity good /\ ~ valid_intensity bad /\
     HttpError 400 body = invalid_scale_reply bad).
Proof.
  split.
  - intros Hrun.
    destruct (mapHandler_error_causes _ _ _ _ _ Hrun)
      as [[_ Hcause] | [Hst _]]; [exact Hcause | discriminate Hst].
  - intros [[He ->] | [[Hne (err & -> & ->)] |
                       [Hne (good & bad & rest & -> & Hgood & Hbad & Hb)]]];
      unfold mapHandler.
    + destruct (decide (query_scale r = "")); [reflexivity | contradiction].
    + destruct (decide (query_scale r = "")); [contradiction | reflexivity].
    + destruct (decide (query_scale r = "")); [contradiction|].
      rewrite (buildScaleMap_rejects good rest bad Hgood Hbad).
      cbn [bind]. symmetry. exact Hb.
Qed.

(** X16.  The reply "Invalid ID format in GeoJSON" of the drawing loop is
    never sent, under any status: a feature without numeric id has made
    [calculateBounds] panic before the loop is reached. *)
Theorem mapHandler_never_reports_id (r : Request)
    (decoded : string + list IntensityQuery) (japan : Dataset)
    (status : Z) :
  mapHandler Sprintf_1f r decoded japan
  <> HttpError status "Invalid ID format in GeoJSON".
Proof.
  intros Hrun.
  destruct (mapHandler_error_causes _ _ _ _ _ Hrun)
    as [[_ [[_ H] | [[_ (err & _ & H)] |
                     [_ (good & bad & rest & _ & _ & _ & H)]]]]
       | [_ [(err & _ & H) | (err & _ & H)]]];
    discriminate H.
Qed.

(** X17.  When the request is valid, a dataset that cannot be read or
    decoded is answered with 500 and the cause. *)
Theorem mapHandler_dataset_failure (r : Request)
    (intensities : list IntensityQuery) (err : string) :
  query_scale r <> "" ->
  Forall valid_intensity intensities ->
  mapHandler Sprintf_1f r (inr intensities) (ReadFailed err)
  = HttpError 500 ("Failed to read geojson: " +:+ err) /\
  mapHandler Sprintf_1f r (inr intensities) (UnmarshalFailed err)
  = HttpError 500 ("Failed to unmarshal geojson: " +:+ err).
Proof.
  intros Hscale Hvalid. unfold mapHandler.
  destruct (decide (query_scale r = "")) as [He | _]; [contradiction|].
  rewrite (buildScaleMap_valid intensities Hvalid). split; reflexivity.
Qed.

End Fills.

Lemma mapHandler_fills_from_palette_witness :
  exists img,
    mapHandler sample_Sprintf_1f sample_request (inr [])
      (Loaded sample_features)
    = Returned img /\
    Forall (filled_from_palette sample_Sprintf_1f (multiplier_of ""))
      (svgData img).
Proof.
  destruct sample_reply as [img Hrun]. exists img. split; [exact Hrun|].
  exact (mapHandler_fills_from_palette sample_Sprintf_1f sample_request
           (inr []) (Loaded sample_features) img Hrun).
Defined.

Lemma mapHandler_dataset_failure_witness :
  mapHandler sample_Sprintf_1f sample_request (inr [])
    (ReadFailed "no such file")
  = HttpError 500 "Failed to read geojson: no such file".
Proof.
  apply (mapHandler_dataset_failure sample_Sprintf_1f sample_request []
           "no such file").
  - discriminate.
  - apply List.Forall_nil.
Defined.

(** ** The centre of a ring and the labels *)











(** ** Labels on a polygon without ring *)

Lemma labelCenter_panics (g : Geometry) :
  labelCenter g = Panicked <->
  g = Polygon [] \/ g = MultiPolygon [] \/
  exists rest, g = MultiPolygon ([] :: rest).
Proof.
  split.
  - destruct g as [[|r rings] | [|[|r rings] polygons] | name]; simpl;
      intros H; try discriminate H; eauto.
  - intros [-> | [-> | [rest ->]]]; reflexivity.
Qed.

Lemma scaleLabels_panics (scaleMap : gmap Z Z) (toScreen : R -> R -> R * R)
    (features : list Feature) (f : Feature) :
  Forall has_id features ->
  In f features -> active scaleMap f ->
  labelCenter (geometry f) = Panicked ->
  scaleLabels features scaleMap toScreen = Panicked.
Proof.
  intros Hids Hf Hact Hcenter.
  induction Hids as [|f' features [idf Hid] _ IH]; [destruct Hf|].
  simpl. rewrite Hid.
  destruct Hf as [-> | Hf].
  - apply (active_iff _ _ _ Hid) in Hact. unfold scale_at in Hact.
    destruct (scaleMap !! int_of_float64 idf) as [scale|];
      [|now simpl in Hact].
    simpl in Hact. destruct (decide (scale = 0%Z)); [contradiction|].
    rewrite Hcenter. reflexivity.
  - specialize (IH Hf).
    destruct (scaleMap !! int_of_float64 idf) as [scale|]; [|exact IH].
    destruct (decide (scale = 0%Z)); [exact IH|].
    destruct (labelCenter (geometry f')) as [center | | st bd] eqn:Hc;
      simpl; [|reflexivity|].
    + rewrite IH. reflexivity.
    + exfalso. exact (labelCenter_never_replies _ _ _ Hc).
Qed.

(** X20.  A polygon without ring (or a multi-polygon whose first part has
    none) is drawn as an empty path, but it has no first ring to label:
    when such a feature is active, the request with [scale_text] "true"
    makes the handler panic, while the same request without labels is
    answered with the image. *)
Theorem mapHandler_label_without_ring
    (Sprintf_1f : R -> string) (r : Request)
    (intensities : list IntensityQuery) (scaleMap : gmap Z Z)
    (features : list Feature) (f : Feature) :
  query_scale r <> "" ->
  buildScaleMap intensities ∅ = Returned scaleMap ->
  Forall has_id features ->
  In f features -> active scaleMap f ->
  (geometry f = Polygon [] \/ geometry f = MultiPolygon [] \/
   exists rest, geometry f = MultiPolygon ([] :: rest)) ->
  (query_scale_text r = "true" ->
   mapHandler Sprintf_1f r (inr intensities) (Loaded features) = Panicked) /\
  (query_scale_text r <> "true" ->
   exists img,
     mapHandler Sprintf_1f r (inr intensities) (Loaded features)
     = Returned img).
Proof.
  intros Hscale Hmap Hids Hf Hact Hringless.
  apply labelCenter_panics in Hringless.
  destruct (buildScaleMap_returned _ _ _ Hmap) as [Hvalid _].
  split.
  - intros Hflag.
    destruct (calculateBounds_loop_spec scaleMap features Hids
                (mkBounds 180 90 (-180) (-90))) as (b & Hb & _).
    change (calculateBounds features scaleMap = Returned b) in Hb.
    unfold mapHandler.
    destruct (decide (query_scale r = "")) as [He | _]; [contradiction|].
    rewrite Hmap. cbn [bind]. rewrite Hb. cbn [bind].
    rewrite composeScene_returns by exact Hids. cbn [bind].
    unfold svgToPNG. rewrite bool_decide_eq_true_2 by exact Hflag.
    rewrite (scaleLabels_panics _ _ _ f Hids Hf Hact Hringless).
    reflexivity.
  - intros Hflag. apply mapHandler_replies_image; auto.
Qed.

Lemma ringless_active : active sample_scaleMap ringless_feature.
Proof.
  exists 13%R. split; [reflexivity|].
  rewrite int_of_float64_IZR, sample_scale_13. discriminate.
Qed.

(** Prefecture 13 without ring, at level 5, with labels requested. *)
Lemma mapHandler_label_without_ring_witness :
  mapHandler sample_Sprintf_1f (mkRequest sample_scale_text "" "" "true")
    (inr sample_intensities) (Loaded [ringless_feature])
  = Panicked.
Proof.
  apply (mapHandler_label_without_ring sample_Sprintf_1f
           (mkRequest sample_scale_text "" "" "true")
           sample_intensities sample_scaleMap [ringless_feature]
           ringless_feature).
  - discriminate.
  - exact sample_assignment.
  - apply List.Forall_cons; [eexists; reflexivity | apply List.Forall_nil].
  - now left.
  - exact ringless_active.
  - left. reflexivity.
  - reflexivity.
Defined.

(** ** Colours and geometry *)

(** X21.  Within 0..7 distinct levels have distinct colours. *)
Theorem intensityToColor_injective (level level' : Z) :
  (0 <= level <= 7)%Z -> (0 <= level' <= 7)%Z ->
  intensityToColor level = intensityToColor level' -> level = level'.
Proof.
  intros H H'.
  assert (Hcases : level = 0%Z \/ level = 1%Z \/ level = 2%Z \/ level = 3%Z
                   \/ level = 4%Z \/ level = 5%Z \/ level = 6%Z
                   \/ level = 7%Z) by lia.
  assert (Hcases' : level' = 0%Z \/ level' = 1%Z \/ level' = 2%Z
                    \/ level' = 3%Z \/ level' = 4%Z \/ level' = 5%Z
                    \/ level' = 6%Z \/ level' = 7%Z) by lia.
  clear H H'.
  repeat destruct Hcases as [-> | Hcases]; try subst level;
    repeat destruct Hcases' as [-> | Hcases']; try subst level';
    intros Heq; first [reflexivity | discriminate Heq].
Qed.

Lemma intensityToColor_injective_witness : 5%Z = 5%Z.
Proof.
  apply (intensityToColor_injective 5 5); [lia | lia | reflexivity].
Defined.

Lemma widen_flattened (polygons : list (list Ring)) :
  forall b,
    fold_left widen_polygon polygons b = widen_polygon b (concat polygons).
Proof.
  unfold widen_polygon.
  induction polygons as [|rings polygons IH]; intros b; simpl.
  - reflexivity.
  - rewrite fold_left_app. apply IH.
Qed.

(** X22.  For the bounds and for the drawing a multi-polygon is the polygon
    of all the rings of its parts: both give the same bounds and the same
    path element. *)
Theorem multiPolygon_as_polygon (Sprintf_1f : R -> string)
    (multiplier : R) (scaleMap : gmap Z Z) (toScreen : R -> R -> R * R)
    (id : option R) (polygons : list (list Ring)) (b : Bounds) :
  widen_geometry b (MultiPolygon polygons)
  = widen_geometry b (Polygon (concat polygons)) /\
  drawFeature Sprintf_1f multiplier scaleMap toScreen
    (mkFeature id (MultiPolygon polygons))
  = drawFeature Sprintf_1f multiplier scaleMap toScreen
      (mkFeature id (Polygon (concat polygons))).
Proof.
  split.
  - simpl. apply widen_flattened.
  - unfold drawFeature. cbn [id_property geometry].
    rewrite !buildPaths_map. reflexivity.
Qed.

(** ** The order of the pairs *)

Lemma filter_id_short (intensities : list IntensityQuery) (id : Z) :
  NoDup (map ID intensities) ->
  (length (filter (fun q => ID q = id) intensities) <= 1)%nat.
Proof.
  induction intensities as [|q intensities IH]; intros Hnodup; simpl.
  - lia.
  - apply NoDup_cons in Hnodup as [Hfresh Hnodup].
    rewrite filter_cons. destruct (decide (ID q = id)) as [Heq | Hne].
    + assert (Hnone : filter (fun q0 => ID q0 = id) intensities = []).
      { destruct (filter (fun q0 => ID q0 = id) intensities) as [|a l] eqn:Hf;
          [reflexivity|].
        exfalso. apply Hfresh.
        assert (Ha : a ∈ filter (fun q0 => ID q0 = id) intensities)
          by (rewrite Hf; left).
        apply list_elem_of_filter in Ha as [Hid Hin].
        rewrite Heq, <- Hid. apply list_elem_of_fmap_2. exact Hin. }
      rewrite Hnone. simpl. lia.
    + apply IH. exact Hnodup.
Qed.

Lemma last_for_permutation (intensities intensities' : list IntensityQuery)
    (id : Z) :
  Permutation intensities intensities' ->
  NoDup (map ID intensities) ->
  last_for id intensities' = last_for id intensities.
Proof.
  intros Hperm Hnodup. unfold last_for.
  pose proof (filter_id_short intensities id Hnodup) as Hshort.
  assert (Hfilter : Permutation (filter (fun q => ID q = id) intensities)
                      (filter (fun q => ID q = id) intensities'))
    by (now apply filter_Permutation).
  destruct (filter (fun q => ID q = id) intensities) as [|a [|a' l]].
  - apply Permutation_nil in Hfilter. now rewrite Hfilter.
  - apply Permutation_singleton_l in Hfilter. now rewrite Hfilter.
  - simpl in Hshort. lia.
Qed.

(** X23.  When every pair is in range and no id occurs twice, the order of
    the pairs in the [scale] parameter has no effect: a permutation of the
    list gives the same assignment and the same reply. *)
Theorem buildScaleMap_permutation
    (intensities intensities' : list IntensityQuery) :
  Forall valid_intensity intensities ->
  NoDup (map ID intensities) ->
  Permutation intensities intensities' ->
  buildScaleMap intensities' ∅ = buildScaleMap intensities ∅ /\
  forall Sprintf_1f r japan,
    mapHandler Sprintf_1f r (inr intensities') japan
    = mapHandler Sprintf_1f r (inr intensities) japan.
Proof.
  intros Hvalid Hnodup Hperm.
  assert (Hvalid' : Forall valid_intensity intensities')
    by (eapply Permutation_Forall; eassumption).
  assert (Hsame :
    buildScaleMap intensities' ∅ = buildScaleMap intensities ∅).
  { rewrite !buildScaleMap_valid by assumption. f_equal.
    apply map_eq. intros id. rewrite !lookup_inserted.
    now rewrite (last_for_permutation _ _ id Hperm Hnodup). }
  split; [exact Hsame|].
  intros Sprintf_1f r japan. unfold mapHandler. now rewrite Hsame.
Qed.

Lemma buildScaleMap_permutation_witness :
  buildScaleMap [mkIntensityQuery 1 2; mkIntensityQuery 13 5] ∅
  = buildScaleMap [mkIntensityQuery 13 5; mkIntensityQuery 1 2] ∅.
Proof.
  apply (buildScaleMap_permutation
           [mkIntensityQuery 13 5; mkIntensityQuery 1 2]
           [mkIntensityQuery 1 2; mkIntensityQuery 13 5]).
  - repeat (apply List.Forall_cons;
            [unfold valid_intensity; simpl; lia|]).
    apply List.Forall_nil.
  - simpl. apply NoDup_cons. split; [|apply NoDup_singleton].
    intros H. apply list_elem_of_singleton in H. discriminate H.
  - apply perm_swap.
Defined.
